(** * react-plot: the plot registry, colour scale, series, axis and
      annotation components, embedded as functions

    The components of [src/components] are render functions: given their
    props and the values their hooks hand them, they return an element
    tree, may throw, may write to the console and may schedule effects
    that dispatch registry actions.  Each of them is embedded below as a
    function of exactly those inputs.

    JavaScript numbers are modelled as exact rationals ([Qc]); [NaN] and
    the infinities are outside the model.  [undefined] and [null] are
    [None] of an [option] where the source distinguishes an absent value. *)

From Stdlib Require Import QArith Qcanon Qround Lqa Ascii.
From stdpp Require Import base numbers strings list gmap sorting.

Set Warnings "-register-all".

Open Scope Qc_scope.

(** ** JavaScript values *)

Module Js.

Definition number := Qc.

Definition num (z : Z) : number := Qc_of_Z z.

(** The result of running a function that may [throw new Error(msg)]. *)
Inductive outcome (A : Type) : Type :=
| Returned (a : A)
| Thrown (msg : string).
Arguments Returned {A} a.
Arguments Thrown {A} msg.

Definition bind {A B} (m : outcome A) (k : A → outcome B) : outcome B :=
  match m with
  | Returned a => k a
  | Thrown msg => Thrown msg
  end.

Definition throws {A} (m : outcome A) : Prop := ∃ msg, m = Thrown msg.

(** [x || 0] on an optional number: [undefined] and [0] are falsy. *)
Definition or_zero (x : option number) : number :=
  match x with
  | Some n => if decide (n = 0) then 0 else n
  | None => 0
  end.

(** A template literal, kept as its pieces instead of printing numbers. *)
Inductive frag : Type :=
| Lit (s : string)
| NumF (n : number)
| StrF (s : string).

Definition template := list frag.

(** Scalar values that end up in attributes and style objects. *)
Inductive value : Type :=
| VNum (n : number)
| VStr (s : string)
| VTpl (t : template)
| VNaN
| VUndefined.

(** An object literal with string keys, in key order. *)
Definition object (X : Type) := list (string * X).

(** [o[k] = v]: overwrite in place when the key exists, else append. *)
Definition assign {X} (o : object X) (k : string) (v : X) : object X :=
  if decide (k ∈ o.*1)
  then (λ kv, if decide (kv.1 = k) then (k, v) else kv) <$> o
  else o ++ [(k, v)].

(** [{...o1, ...o2}] *)
Definition spread {X} (o1 o2 : object X) : object X :=
  foldl (λ acc kv, assign acc kv.1 kv.2) o1 o2.

Fixpoint get {X} (o : object X) (k : string) : option X :=
  match o with
  | [] => None
  | (k', v) :: rest => if decide (k' = k) then Some v else get rest k
  end.

End Js.

Export Js.

(** ** The parts of d3 the components call *)

Module D3.

(** [extent(values)] of d3-array: the first value starts both bounds,
    every later value lowers the minimum or raises the maximum; an empty
    array gives [[undefined, undefined]]. *)
Fixpoint extent_from (min max : number) (values : list number)
  : number * number :=
  match values with
  | [] => (min, max)
  | value :: rest =>
      extent_from (if decide (value < min) then value else min)
                  (if decide (max < value) then value else max) rest
  end.

Definition extent (values : list number) : option number * option number :=
  match values with
  | [] => (None, None)
  | value :: rest =>
      let '(min, max) := extent_from value value rest in (Some min, Some max)
  end.

(** [scaleOrdinal()] of d3-scale with the implicit unknown: a mutable
    object holding a domain and a range.  Calling it on a key that is not
    in the domain appends the key to the domain. *)
Record ordinal : Type := Ordinal {
  domain : list string;
  range : list string
}.

Definition scaleOrdinal : ordinal := Ordinal [] [].

Definition set_range (r : list string) (s : ordinal) : ordinal :=
  Ordinal (domain s) r.

(** The loop of [scale.domain(_)]: a key already seen is skipped. *)
Fixpoint push_all (dom values : list string) : list string :=
  match values with
  | [] => dom
  | v :: rest =>
      if decide (v ∈ dom) then push_all dom rest
      else push_all (dom ++ [v]) rest
  end.

Definition set_domain (d : list string) (s : ordinal) : ordinal :=
  Ordinal (push_all [] d) (range s).

Fixpoint index_of (k : string) (l : list string) : option nat :=
  match l with
  | [] => None
  | x :: rest => if decide (x = k) then Some 0%nat else S <$> index_of k rest
  end.

(** [scale(d)]: [range[(i - 1) % range.length]] for the 1-based index [i]
    of the key; with an empty range the subscript is [NaN] and the result
    [undefined].  Returns the colour and the scale object afterwards. *)
Definition call (s : ordinal) (d : string) : option string * ordinal :=
  match index_of d (domain s) with
  | Some i => (range s !! (i mod length (range s))%nat, s)
  | None =>
      (range s !! (length (domain s) mod length (range s))%nat,
       Ordinal (domain s ++ [d]) (range s))
  end.

(** [schemeSet1] of d3-scale-chromatic. *)
Definition schemeSet1 : list string :=
  ["#e41a1c"; "#377eb8"; "#4daf4a"; "#984ea3"; "#ff7f00";
   "#ffff33"; "#a65628"; "#f781bf"; "#999999"].

(** [line().x(d => d.x).y(d => d.y)(series)] of d3-shape: the path
    through the points, kept as the point list; [null] for no point. *)
Definition lineGenerator (series : list (number * number))
  : option (list (number * number)) :=
  match series with
  | [] => None
  | _ => Some series
  end.

End D3.

(** ** Element trees *)

Module React.

(** What a JSX attribute can hold. *)
Inductive attr : Type :=
| AVal (v : value)
| AStyle (css : object value)
| APath (d : option (list (number * number)))
| ARef (name : string).

(** The tree a component returns.  [V] is the props of the component
    elements whose props are more than plain attributes (context
    providers among them), [C] a child element declared by the caller and
    passed through unchanged. *)
Inductive node (V C : Type) : Type :=
| NNull
| NText (s : string)
| NChild (c : C)
| NElem (tag : string) (attrs : object attr) (children : list (node V C))
| NFragment (children : list (node V C))
| NComponent (props : V) (children : list (node V C)).
Arguments NNull {V C}.
Arguments NText {V C} s.
Arguments NChild {V C} c.
Arguments NElem {V C} tag attrs children.
Arguments NFragment {V C} children.
Arguments NComponent {V C} props children.

(** [{child}] for a child that may be [null]. *)
Definition slot {V C} (c : option C) : node V C :=
  match c with
  | Some c => NChild c
  | None => NNull
  end.

(** The [clipPath] a group's style refers to, when it has one. *)
Definition clip_of (attrs : object attr) : list value :=
  match get attrs "style" with
  | Some (AStyle css) =>
      match get css "clipPath" with
      | Some v => [v]
      | None => []
      end
  | _ => []
  end.

(** Every passed-through child of a tree, in document order, each with
    the clip paths of the elements it is nested in (outermost first). *)
Fixpoint placements {V C} (clips : list value) (t : node V C)
  : list (C * list value) :=
  match t with
  | NNull | NText _ => []
  | NChild c => [(c, clips)]
  | NElem _ attrs children =>
      concat (map (placements (clips ++ clip_of attrs)) children)
  | NFragment children | NComponent _ children =>
      concat (map (placements clips) children)
  end.

(** Every element of a tree with the given tag, in document order. *)
Fixpoint elements_by_tag {V C} (tag : string) (t : node V C)
  : list (object attr * list (node V C)) :=
  match t with
  | NNull | NText _ | NChild _ => []
  | NElem tag' attrs children =>
      (if decide (tag' = tag) then [(attrs, children)] else [])
      ++ concat (map (elements_by_tag tag) children)
  | NFragment children | NComponent _ children =>
      concat (map (elements_by_tag tag) children)
  end.

End React.

Export React.

(** ** The registry: plot state, actions, reducer *)

Module PlotContext.

(** The value of a [newData] action, as [LineSeries] builds it. *)
Record SeriesDescriptor : Type := {
  id : string;
  xMin : option number;
  xMax : option number;
  yMin : option number;
  yMax : option number;
  label : string
}.

Inductive PlotReducerActions : Type :=
| newData (value : SeriesDescriptor)
| removeData (id : string).

(** Modelled from the spec: the position enum of section 3
    ([top|right|bottom|left]); its declaration is in [contexts/plotContext],
    which is not among the sources. *)
Inductive Position : Type := Top | Right | Bottom | Left.

(** Modelled from the spec: the scale kinds of section 3
    ([linear|time|log|band]), declared in [contexts/plotContext]. *)
Inductive ScaleKind : Type :=
| ScaleLinear | ScaleTime | ScaleLog | ScaleBand.

(** Modelled from the spec: a padding is a number or a percentage
    (section 3), declared in [contexts/plotContext]. *)
Inductive Padding : Type :=
| PadAbsolute (n : number)
| PadPercent (n : number).

(** Modelled from the spec: [AxisConfig] of section 3, declared in
    [contexts/plotContext]; the key of the [axes] map is its id. *)
Record AxisConfig : Type := {
  position : Position;
  scaleKind : ScaleKind;
  paddingStart : Padding;
  paddingEnd : Padding;
  explicitDomain : option (number * number)
}.

(** [PlotState], with the fields [initialState] of [Plot.tsx] sets; the
    type itself is declared in [contexts/plotContext]. *)
Record PlotState : Type := {
  headingPosition : option Position;
  legendPosition : option Position;
  legendMargin : number;
  series : list SeriesDescriptor;
  axes : gmap string AxisConfig
}.

Definition initialState : PlotState := {|
  headingPosition := None;
  legendPosition := None;
  legendMargin := 0;
  series := [];
  axes := ∅
|}.

Definition with_series (s : PlotState) (l : list SeriesDescriptor)
  : PlotState := {|
  headingPosition := headingPosition s;
  legendPosition := legendPosition s;
  legendMargin := legendMargin s;
  series := l;
  axes := axes s
|}.

(** Modelled from the spec: the [newData] case of [plotReducer]
    (section 4.1): upsert by [id], replacing the descriptor if the id is
    present, else appending, so that insertion order is kept. *)
Fixpoint upsert (d : SeriesDescriptor) (l : list SeriesDescriptor)
  : list SeriesDescriptor :=
  match l with
  | [] => [d]
  | e :: rest => if decide (id e = id d) then d :: rest else e :: upsert d rest
  end.

(** Modelled from the spec: the [removeData] case of [plotReducer]
    (section 4.1): delete by [id]; removing an id that is not there is a
    no-op. *)
Definition remove (i : string) (l : list SeriesDescriptor)
  : list SeriesDescriptor :=
  filter (λ e, id e ≠ i) l.

(** Modelled from the spec: [plotReducer] of [contexts/plotContext] is
    not among the sources; its two registry actions are those of section
    4.1, and nothing but the series list changes. *)
Definition plotReducer (state : PlotState) (action : PlotReducerActions)
  : PlotState :=
  match action with
  | newData value => with_series state (upsert value (series state))
  | removeData i => with_series state (remove i (series state))
  end.

(** The descriptor registered under an id. *)
Fixpoint find_series (i : string) (l : list SeriesDescriptor)
  : option SeriesDescriptor :=
  match l with
  | [] => None
  | e :: rest => if decide (id e = i) then Some e else find_series i rest
  end.

Definition registered (i : string) (state : PlotState)
  : option SeriesDescriptor :=
  find_series i (series state).

#[global] Instance SeriesDescriptor_eq_dec : EqDecision SeriesDescriptor.
Proof. solve_decision. Defined.
#[global] Instance Position_eq_dec : EqDecision Position.
Proof. solve_decision. Defined.
#[global] Instance ScaleKind_eq_dec : EqDecision ScaleKind.
Proof. solve_decision. Defined.
#[global] Instance Padding_eq_dec : EqDecision Padding.
Proof. solve_decision. Defined.
#[global] Instance AxisConfig_eq_dec : EqDecision AxisConfig.
Proof. solve_decision. Defined.
#[global] Instance PlotState_eq_dec : EqDecision PlotState.
Proof. solve_decision. Defined.

End PlotContext.

Export PlotContext.

(** ** immer's [produce] and the reducer hook *)

Module Immer.

(** State objects live in a heap and are known by their reference. *)
Definition ref := positive.

Record store : Type := Store {
  heap : gmap ref PlotState;
  current : ref
}.

(** [produce(recipe)] of immer, curried over a reducer: the recipe works
    on a draft of the base object, and the base object is never written
    to.  When the recipe wrote nothing to the draft the base reference
    itself is returned; when it wrote, the draft is finished into a newly
    allocated object.  [writes] tells for which state and action the
    recipe's code writes to the draft. *)
Definition produce {A} (recipe : PlotState → A → PlotState)
    (writes : PlotState → A → bool)
    (h : gmap ref PlotState) (base : ref) (action : A)
  : option (gmap ref PlotState * ref) :=
  match h !! base with
  | None => None
  | Some state =>
      if writes state action
      then let r := fresh (dom h) in Some (<[r := recipe state action]> h, r)
      else Some (h, base)
  end.

(** A recipe changes the state only by writing to the draft. *)
Definition tracks {A} (recipe : PlotState → A → PlotState)
    (writes : PlotState → A → bool) : Prop :=
  ∀ state action, recipe state action ≠ state → writes state action = true.

(** [const reducerCurr = produce(plotReducer)].  The code of [plotReducer]
    is not among the sources, so which dispatches write to the draft comes
    as a parameter. *)
Definition reducerCurr (writes : PlotState → PlotReducerActions → bool) :=
  produce plotReducer writes.

(** One way to write the reducer: it writes exactly when there is
    something to change. *)
Definition writes_on_change (state : PlotState) (action : PlotReducerActions)
  : bool :=
  bool_decide (plotReducer state action ≠ state).


Definition dispatch (writes : PlotState → PlotReducerActions → bool)
    (s : store) (action : PlotReducerActions) : option store :=
  match reducerCurr writes (heap s) (current s) action with
  | Some (h, r) => Some (Store h r)
  | None => None
  end.

Definition state_of (s : store) : option PlotState := heap s !! current s.

End Immer.

(** ** [LineSeries.tsx] *)

Module LineSeries.

(** [Series]: the two coordinate arrays of a line series. *)
Record Series : Type := {
  x : list number;
  y : list number
}.

Record LineSeriesProps : Type := {
  data : Series;
  label : string;
  lineStyle : option (object value)
}.

(** What an effect does when it runs and what its cleanup does, as the
    actions handed to [dispatch]. *)
Record effect : Type := {
  run : list PlotReducerActions;
  cleanup : list PlotReducerActions
}.

(** The [useEffect] of [LineSeries]; [id] is the series id the component
    drew from [getNextId] when it was first rendered. *)
Definition LineSeries_effect (id : string) (props : LineSeriesProps)
  : effect :=
  let '(xMin, xMax) := D3.extent (x (data props)) in
  let '(yMin, yMax) := D3.extent (y (data props)) in
  {| run := [newData {| PlotContext.id := id;
                        PlotContext.xMin := xMin;
                        PlotContext.xMax := xMax;
                        PlotContext.yMin := yMin;
                        PlotContext.yMax := yMax;
                        PlotContext.label := label props |}];
     cleanup := [removeData id] |}.

Definition dispatch_all (state : PlotState)
    (actions : list PlotReducerActions) : PlotState :=
  foldl plotReducer state actions.

(** The life of the effect: it runs after the first render; when [data]
    or [label] changed, the previous cleanup runs and then the effect of
    the new props; on unmount the last cleanup runs. *)
Definition mount (id : string) (props : LineSeriesProps)
    (state : PlotState) : PlotState :=
  dispatch_all state (run (LineSeries_effect id props)).

Definition update (id : string) (old new : LineSeriesProps)
    (state : PlotState) : PlotState :=
  dispatch_all
    (dispatch_all state (cleanup (LineSeries_effect id old)))
    (run (LineSeries_effect id new)).

Definition unmount (id : string) (props : LineSeriesProps)
    (state : PlotState) : PlotState :=
  dispatch_all state (cleanup (LineSeries_effect id props)).

(** What [usePlotContext()] gives [LineSeriesRender]; a scale that is
    [null] is [None]. *)
Record RenderContext : Type := {
  xScale : option (number → number);
  yScale : option (number → number);
  colorScaler : D3.ordinal
}.

(** [[xScale, yScale].includes(null)] *)
Definition includes_null (ctx : RenderContext) : bool :=
  match xScale ctx, yScale ctx with
  | Some _, Some _ => false
  | _, _ => true
  end.

(** The memoised [path]. *)
Definition path (ctx : RenderContext) (data : Series)
  : option (list (number * number)) :=
  match xScale ctx, yScale ctx with
  | Some xs, Some ys =>
      if decide (length (x data) ≠ length (y data)) then None
      else D3.lineGenerator
             (zip_with (λ vx vy, (xs vx, ys vy)) (x data) (y data))
  | _, _ => None
  end.

(** [LineSeriesRender]: the element it returns ([NNull] for [null])
    and the colour scale object after the call [colorScaler(label)]. *)
Definition LineSeriesRender {V C} (ctx : RenderContext)
    (props : LineSeriesProps) : outcome (node V C) * D3.ordinal :=
  let d := path ctx (data props) in
  if includes_null ctx then (Returned NNull, colorScaler ctx)
  else
    let '(stroke, scaler) := D3.call (colorScaler ctx) (label props) in
    let style :=
      spread [("stroke", from_option VStr VUndefined stroke);
              ("strokeWidth", VNum (num 2))]
             (default [] (lineStyle props)) in
    (Returned (NElem "path"
                 [("style", AStyle style); ("d", APath d);
                  ("fill", AVal (VStr "none"))] []),
     scaler).

End LineSeries.

(** ** [types]: margins *)

Module Types.

(** [Partial<Margins>]: each side may be left out. *)
Record Margins : Type := {
  marginTop : option number;
  marginRight : option number;
  marginBottom : option number;
  marginLeft : option number
}.

End Types.

Export Types.

(** ** [XAxis.tsx] *)

Module XAxis.

Record AxisProps : Type := {
  label : option string;
  fontSize : option number;
  showGridLines : option bool
}.

(** What [usePlotContext()] gives [XAxis]. *)
Record AxisContext : Type := {
  xScale : option (number → number);
  margin : option Margins;
  height : number;
  width : number
}.

(** What the layout effect draws into the axis group with d3-axis. *)
Record AxisDrawing : Type := {
  tickSizeInner : option number;
  tickStrokeOpacity : number;
  tickStrokeDasharray : string;
  tickTextTransform : template
}.

(** One render of the component: what went to [console.warn], the
    element returned, and the drawing its layout effect makes. *)
Record Rendering (V C : Type) : Type := {
  warned : list template;
  returned : node V C;
  drawn : option AxisDrawing
}.
Arguments warned {V C} r.
Arguments returned {V C} r.
Arguments drawn {V C} r.

Definition truthy (b : option bool) : bool := default false b.

Definition layoutEffect (showGridLines : option bool) (ctx : AxisContext)
  : option AxisDrawing :=
  match xScale ctx with
  | None => None
  | Some _ =>
      Some {|
        tickSizeInner :=
          if truthy showGridLines
          then Some (or_zero (margin ctx ≫= marginBottom)
                     + or_zero (margin ctx ≫= marginTop) - height ctx)
          else None;
        tickStrokeOpacity :=
          if truthy showGridLines then Q2Qc (1 # 2) else 1;
        tickStrokeDasharray := if truthy showGridLines then "2,2" else "0";
        tickTextTransform :=
          [Lit "translate(0,";
           NumF (if truthy showGridLines then num 6 else 0); Lit ")"]
      |}
  end.

Definition XAxis {V C} (props : AxisProps) (ctx : AxisContext)
  : Rendering V C :=
  let fontSize := default (num 16) (fontSize props) in
  let bottom := or_zero (margin ctx ≫= marginBottom) in
  {| warned :=
       if decide (or_zero (margin ctx ≫= marginLeft) < fontSize + num 20)
       then [[Lit "Your margin left should be at least ";
              NumF (fontSize + num 20)]]
       else [];
     returned :=
       NFragment
         [NElem "g"
            [("ref", ARef "axisRef");
             ("transform",
              AVal (VTpl [Lit "translate(0, ";
                          NumF (height ctx - bottom); Lit ")"]))] [];
          match label props with
          | None => NNull
          | Some "" => NText ""
          | Some l =>
              NElem "text"
                [("transform",
                  AVal (VTpl [Lit "translate("; NumF (width ctx / num 2);
                              Lit " ,";
                              NumF (height ctx - bottom + num 20 + fontSize);
                              Lit ")"]));
                 ("fontSize", AVal (VNum fontSize));
                 ("textAnchor", AVal (VStr "middle"))]
                [NText l]
          end];
     drawn := layoutEffect (showGridLines props) ctx |}.

End XAxis.

(** ** Scales *)

Module Scale.

(** Modelled from the spec: a numeric domain [{min, max}] (section 3). *)
Record Domain : Type := { min : number; max : number }.

(** Modelled from the spec: the pixel range of section 4.3, from
    [pixelRange.start] to [pixelRange.end] (here [stop]). *)
Record PixelRange : Type := { start : number; stop : number }.

(** Modelled from the spec: the division by zero that section 4.3 rules
    out, as a quotient that fails on a zero divisor. *)
Definition divide (a b : number) : outcome number :=
  if decide (b = 0) then Thrown "division by zero" else Returned (a / b).

(** Modelled from the spec: the linear case of the scale resolver
    [build(domain, pixelRange, scaleKind)], which is built in
    [contexts/plotContext] and is not among the sources.  Section 4.3:
    [f(v) = pixelRange.start + (v - domain.min) / (domain.max -
    domain.min) * (pixelRange.end - pixelRange.start)], and a degenerate
    domain maps every value to the midpoint of the pixel range rather
    than dividing by zero. *)
Definition linear (domain : Domain) (pixelRange : PixelRange)
    (v : number) : outcome number :=
  if decide (min domain = max domain)
  then Returned ((start pixelRange + stop pixelRange) / num 2)
  else
    bind (divide (v - min domain) (max domain - min domain))
         (λ t, Returned (start pixelRange
                         + t * (stop pixelRange - start pixelRange))).

End Scale.

(** ** Annotations: [Arrow.tsx], [Ellipse.tsx] and the position hooks *)

Module Annotations.

(** [ScalarValue = number | string] *)
Inductive ScalarValue : Type :=
| Num (n : number)
| Str (s : string).

(** Modelled from the spec: what section 4.5 calls a numeric string is
    read as a decimal numeral: digits, with an optional leading minus sign
    and an optional fractional part. *)
Definition digit (c : ascii) : option Z :=
  let n := (Z.of_N (N_of_ascii c) - 48)%Z in
  if decide (0 ≤ n ≤ 9)%Z then Some n else None.

Fixpoint read_digits (s : string) (acc : Z) (count : nat)
  : Z * nat * string :=
  match s with
  | EmptyString => (acc, count, EmptyString)
  | String c rest =>
      match digit c with
      | Some d => read_digits rest (acc * 10 + d)%Z (S count)
      | None => (acc, count, s)
      end
  end.

Definition parse_unsigned (s : string) : option number :=
  let '(whole, n, rest) := read_digits s 0%Z 0%nat in
  match n, rest with
  | O, _ => None
  | _, EmptyString => Some (num whole)
  | _, String "." frac =>
      let '(part, m, rest') := read_digits frac 0%Z 0%nat in
      match m, rest' with
      | S _, EmptyString => Some (num whole + num part / num (10 ^ Z.of_nat m))
      | _, _ => None
      end
  | _, _ => None
  end.

(** Modelled from the spec: the number a numeric string stands for
    (section 4.5); [None] for a string that is not a numeral. *)
Definition parse_number (s : string) : option number :=
  match s with
  | String "-" rest => Qcopp <$> parse_unsigned rest
  | _ => parse_unsigned s
  end.

(** Modelled from the spec: the pattern match on percentage strings
    (section 4.5): the text before a final [%], when the string ends with
    one. *)
Fixpoint percent_suffixed (s : string) : option string :=
  match s with
  | EmptyString => None
  | String c EmptyString =>
      if decide (c = "%"%char) then Some EmptyString else None
  | String c rest => String c <$> percent_suffixed rest
  end.

(** Modelled from the spec: [usePosition] and [useEllipsePosition] of
    [hooks] are not among the sources.  Section 4.5: a bare number is
    already a pixel offset; a numeric string suffixed with [%] is that
    percentage of the relevant plot-area dimension; a bare numeric string
    is a data value passed through the axis scale.  Percentage strings
    are recognised first; otherwise the scale is used if there is one,
    else the number is taken as a pixel.  A string that is not a numeral
    has no pixel value ([None]). *)
Definition resolve (v : ScalarValue) (total : number)
    (scale : option (number → number)) : option number :=
  match v with
  | Num n => Some n
  | Str s =>
      match percent_suffixed s with
      | Some p => (λ q, q * total / num 100) <$> parse_number p
      | None =>
          match scale with
          | Some f => f <$> parse_number s
          | None => parse_number s
          end
      end
  end.

(** Modelled from the spec: the part of the plot context the position
    hooks read, the plot-area dimensions and the axis scales, if any
    (section 4.5). *)
Record PositionContext : Type := {
  plotWidth : number;
  plotHeight : number;
  xScale : option (number → number);
  yScale : option (number → number)
}.

(** The argument [Arrow] passes to [usePosition]. *)
Record PositionConfig : Type := {
  x : ScalarValue;
  y : ScalarValue;
  height : ScalarValue;
  width : ScalarValue
}.

(** The [{x, y}] pixels [Arrow] takes from the result. *)
Record Position : Type := {
  px : option number;
  py : option number
}.

(** Modelled from the spec: [usePosition] of [hooks], not among the
    sources: [resolve({x, y, height, width}) -> {x: pixel, y: pixel}]
    (section 4.5), [x] against the plot width and [y] against the plot
    height. *)
Definition usePosition (ctx : PositionContext) (config : PositionConfig)
  : Position :=
  {| px := resolve (x config) (plotWidth ctx) (xScale ctx);
     py := resolve (y config) (plotHeight ctx) (yScale ctx) |}.

(** The argument [Ellipse] passes to [useEllipsePosition]. *)
Record EllipseConfig : Type := {
  cx : ScalarValue;
  cy : ScalarValue;
  rx : ScalarValue;
  ry : ScalarValue
}.

(** The [{cx, cy, rx, ry}] pixels [Ellipse] takes from the result. *)
Record EllipsePosition : Type := {
  pcx : option number;
  pcy : option number;
  prx : option number;
  pry : option number
}.

(** Modelled from the spec: [useEllipsePosition] of [hooks], not among
    the sources: the analogous [{cx, cy, rx, ry}] variant of section 4.5,
    each coordinate resolved by the shared resolver. *)
Definition useEllipsePosition (ctx : PositionContext)
    (config : EllipseConfig) : EllipsePosition :=
  {| pcx := resolve (cx config) (plotWidth ctx) (xScale ctx);
     pcy := resolve (cy config) (plotHeight ctx) (yScale ctx);
     prx := resolve (rx config) (plotWidth ctx) (xScale ctx);
     pry := resolve (ry config) (plotHeight ctx) (yScale ctx) |}.

(** A resolved pixel as an attribute value. *)
Definition pixel (p : option number) : attr :=
  AVal (from_option VNum VNaN p).

(** [Arrow.tsx] *)
Inductive AnnotationShapeList : Type := circle | triangle | line | none.

Definition shape_name (s : AnnotationShapeList) : string :=
  match s with
  | circle => "circle"
  | triangle => "triangle"
  | line => "line"
  | none => "none"
  end.

Record ArrowProps : Type := {
  x1 : ScalarValue;
  y1 : ScalarValue;
  x2 : ScalarValue;
  y2 : ScalarValue;
  startPoint : option AnnotationShapeList;
  endPoint : option AnnotationShapeList
}.

Definition marker (point : AnnotationShapeList) : value :=
  match point with
  | none => VUndefined
  | _ => VTpl [Lit "url(#marker-"; StrF (shape_name point); Lit ")"]
  end.

Definition Arrow {V C} (ctx : PositionContext) (props : ArrowProps)
  : node V C :=
  let startPoint := default none (startPoint props) in
  let endPoint := default none (endPoint props) in
  let p1 := usePosition ctx {| x := x1 props; y := y1 props;
                               height := Num 0; width := Num 0 |} in
  let p2 := usePosition ctx {| x := x2 props; y := y2 props;
                               height := Num 0; width := Num 0 |} in
  NElem "g" []
    [NElem "line"
       [("x1", pixel (px p1)); ("y1", pixel (py p1));
        ("x2", pixel (px p2)); ("y2", pixel (py p2));
        ("stroke", AVal (VStr "black"));
        ("markerStart", AVal (marker startPoint));
        ("markerEnd", AVal (marker endPoint))] []].



End Annotations.

(** ** [Plot.tsx] *)

Module Plot.

(** What [useBBoxObserver()] returns: a ref and the measured size. *)
Record BBox : Type := {
  ref : string;
  bboxWidth : number;
  bboxHeight : number
}.

(** The argument of [usePlotSizes]. *)
Record PlotSizesInput : Type := {
  sizesWidth : number;
  sizesHeight : number;
  sizesMargin : Margins;
  sizesAxes : gmap string AxisConfig;
  topAxisHeight : number;
  rightAxisWidth : number;
  bottomAxisHeight : number;
  leftAxisWidth : number;
  sizesHeadingPosition : option PlotContext.Position;
  headingHeight : number;
  sizesLegendPosition : option PlotContext.Position;
  sizesLegendMargin : number;
  legendWidth : number;
  legendHeight : number
}.

Section Component.

(** Types declared in modules that are not among the sources: the axis
    context, the axis overrides of the plot controller, the legend
    offset, the plot events handle, and the caller's child elements. *)
Context {AxisContext AxisOverrides LegendOffset Events Child : Type}.

Record Geometry : Type := {
  plotWidth : number;
  plotHeight : number;
  topOffset : number;
  leftOffset : number;
  legendOffset : LegendOffset
}.

(** The result of [splitChildren(children)]. *)
Record SplitChildren : Type := {
  seriesAndAnnotations : list Child;
  topAxis : option Child;
  rightAxis : option Child;
  bottomAxis : option Child;
  leftAxis : option Child;
  heading : option Child;
  legend : option Child
}.

Record PlotProps : Type := {
  width : option number;
  height : option number;
  colorScheme : option (list string);
  margin : option Margins;
  svgStyle : option (object value);
  svgId : option string;
  svgClassName : option string;
  plotViewportStyle : option (object value);
  seriesViewportStyle : option (object value);
  children : list Child
}.

(** What the hooks and imported helpers hand the component in one
    render.  [splitChildren], [usePlotSizes] and [useAxisContext] are
    defined in modules that are not among the sources and are taken as
    they come. *)
Record Hooks : Type := {
  plotId : string;
  state : PlotState;
  plotEvents : option Events;
  plotOverridesAxes : AxisOverrides;
  headingBbox : BBox;
  topAxisBbox : BBox;
  rightAxisBbox : BBox;
  bottomAxisBbox : BBox;
  leftAxisBbox : BBox;
  legendBbox : BBox;
  splitChildren : list Child → SplitChildren;
  usePlotSizes : PlotSizesInput → Geometry;
  useAxisContext : PlotState → AxisOverrides → number * number → AxisContext
}.

(** [PlotContext], the value of [plotContext.Provider]. *)
Record PlotContextValue : Type := {
  ctxWidth : number;
  ctxHeight : number;
  ctxPlotWidth : number;
  ctxPlotHeight : number;
  axisContext : AxisContext;
  colorScaler : D3.ordinal
}.

Record TrackingProps : Type := {
  trackingPlotId : string;
  trackingPlotEvents : Events;
  stateSeries : list SeriesDescriptor;
  trackingAxisContext : AxisContext;
  trackingPlotWidth : number;
  trackingPlotHeight : number
}.

(** Components of the tree whose props are not plain attributes. *)
Inductive component : Type :=
| plotContext_Provider (value : PlotContextValue)
| plotDispatchContext_Provider
| LegendProvider
| bboxContext_Provider (value : string)
| legendOffsetContext_Provider (value : LegendOffset)
| Tracking (props : TrackingProps).

Definition defaultSvgStyle : object value :=
  [("overflow", VStr "visible");
   ("fontFamily", VStr "Arial, Helvetica, sans-serif");
   ("userSelect", VStr "none")].

Definition TransparentRect (width height : number) (style : object value)
  : node component Child :=
  NElem "TransparentRect"
    [("width", AVal (VNum width)); ("height", AVal (VNum height));
     ("style", AStyle style)] [].

Definition optional (s : option string) : attr :=
  AVal (from_option VStr VUndefined s).

(** [state.series.map(({ id }) => id)] *)
Definition ids (state : PlotState) : list string :=
  id <$> series state.

(** [scaleOrdinal<string>().range(colorScheme).domain(ids)] *)
Definition makeColorScaler (colorScheme ids : list string) : D3.ordinal :=
  D3.set_domain ids (D3.set_range colorScheme D3.scaleOrdinal).

Definition clipId (plotId : string) : template :=
  [Lit "seriesViewportClip-"; StrF plotId].

Definition clipUrl (plotId : string) : template :=
  [Lit "url(#seriesViewportClip-"; StrF plotId; Lit ")"].

(** The call of [usePlotSizes] in a render. *)
Definition geometry (h : Hooks) (props : PlotProps)
    (width height : number) : Geometry :=
  usePlotSizes h {|
    sizesWidth := width;
    sizesHeight := height;
    sizesMargin :=
      default (Build_Margins None None None None) (margin props);
    sizesAxes := axes (state h);
    topAxisHeight := bboxHeight (topAxisBbox h);
    rightAxisWidth := bboxWidth (rightAxisBbox h);
    bottomAxisHeight := bboxHeight (bottomAxisBbox h);
    leftAxisWidth := bboxWidth (leftAxisBbox h);
    sizesHeadingPosition := headingPosition (state h);
    headingHeight := bboxHeight (headingBbox h);
    sizesLegendPosition := legendPosition (state h);
    sizesLegendMargin := legendMargin (state h);
    legendWidth := bboxWidth (legendBbox h);
    legendHeight := bboxHeight (legendBbox h)
  |}.

(** The element tree of one render, once width and height are known. *)
Definition render (h : Hooks) (props : PlotProps) (width height : number)
  : node component Child :=
  let colorScheme := default D3.schemeSet1 (colorScheme props) in
  let split := splitChildren h (children props) in
  let sizes := geometry h props width height in
  let axisContext :=
    useAxisContext h (state h) (plotOverridesAxes h)
                   (plotWidth sizes, plotHeight sizes) in
  let colorScaler := makeColorScaler colorScheme (ids (state h)) in
  let plotContextValue := {|
    ctxWidth := width;
    ctxHeight := height;
    ctxPlotWidth := plotWidth sizes;
    ctxPlotHeight := plotHeight sizes;
    axisContext := axisContext;
    colorScaler := colorScaler
  |} in
  let axisGroup (bbox : BBox) (axis : option Child) :=
    NComponent (bboxContext_Provider (ref bbox))
      [NElem "g" [] [slot axis]] in
  NComponent (plotContext_Provider plotContextValue)
    [NComponent plotDispatchContext_Provider
       [NComponent LegendProvider
          [NElem "svg"
             [("xmlns", AVal (VStr "http://www.w3.org/2000/svg"));
              ("width", AVal (VNum width));
              ("height", AVal (VNum height));
              ("style",
               AStyle (spread defaultSvgStyle
                              (default [] (svgStyle props))));
              ("id", optional (svgId props));
              ("className", optional (svgClassName props))]
             [TransparentRect width height
                (default [] (plotViewportStyle props));
              NElem "g"
                [("transform",
                  AVal (VTpl [Lit "translate("; NumF (leftOffset sizes);
                              Lit ", "; NumF (topOffset sizes); Lit ")"]))]
                [TransparentRect (plotWidth sizes) (plotHeight sizes)
                   (default [] (seriesViewportStyle props));
                 NElem "clipPath"
                   [("id", AVal (VTpl (clipId (plotId h))))]
                   [NElem "rect"
                      [("width", AVal (VNum (plotWidth sizes)));
                       ("height", AVal (VNum (plotHeight sizes)))] []];
                 NElem "g"
                   [("style",
                     AStyle [("clipPath", VTpl (clipUrl (plotId h)))])]
                   (NChild <$> seriesAndAnnotations split);
                 axisGroup (topAxisBbox h) (topAxis split);
                 axisGroup (rightAxisBbox h) (rightAxis split);
                 axisGroup (bottomAxisBbox h) (bottomAxis split);
                 axisGroup (leftAxisBbox h) (leftAxis split);
                 NComponent
                   (legendOffsetContext_Provider (legendOffset sizes))
                   [NElem "g" [("ref", ARef (ref (legendBbox h)))]
                      [slot (legend split)]];
                 match plotEvents h with
                 | Some events =>
                     NComponent
                       (Tracking {|
                          trackingPlotId := plotId h;
                          trackingPlotEvents := events;
                          stateSeries := series (state h);
                          trackingAxisContext := axisContext;
                          trackingPlotWidth := plotWidth sizes;
                          trackingPlotHeight := plotHeight sizes
                        |}) []
                 | None => NNull
                 end];
              NElem "g" [("ref", ARef (ref (headingBbox h)))]
                [slot (heading split)]]]]].

(** [Plot]: the two guards, then the tree. *)
Definition Plot (h : Hooks) (props : PlotProps)
  : outcome (node component Child) :=
  match width props with
  | None => Thrown "width is mandatory"
  | Some width =>
      match height props with
      | None => Thrown "height is mandatory"
      | Some height => Returned (render h props width height)
      end
  end.

(** The colour [colorScaler(key)] gives in a plot whose registry is
    [state]. *)
Definition seriesColor (colorScheme : list string) (state : PlotState)
    (key : string) : option string :=
  (D3.call (makeColorScaler colorScheme (ids state)) key).1.

End Component.

Arguments Geometry : clear implicits.
Arguments SplitChildren : clear implicits.
Arguments PlotProps : clear implicits.
Arguments Hooks : clear implicits.
Arguments PlotContextValue : clear implicits.
Arguments TrackingProps : clear implicits.
Arguments component : clear implicits.

End Plot.

(** ** [nasdaq.stories.tsx] *)

Module Nasdaq.

Record SeriesPoint : Type := { x : number; y : number }.

(** [0.1] *)
Definition tenth : number := Q2Qc (1 # 10).

(** [generateNewXY]; [random] is the value [Math.random()] returns in the
    call. *)
Definition generateNewXY (random : number) (serie : SeriesPoint)
    (step : number) : number * number :=
  let x := x serie + step in
  let rand := Qfloor (random * num 10) in
  let y :=
    if decide (rand `mod` 2 = 0)%Z
    then y serie + num rand * tenth
    else y serie - num rand * tenth in
  (x, y).

(** [array.findIndex(predicate)]: the index of the first element that
    satisfies the predicate, [-1] when there is none. *)
Fixpoint findIndex {A} (predicate : A → bool) (array : list A) : Z :=
  match array with
  | [] => -1
  | a :: rest =>
      if predicate a then 0
      else
        let i := findIndex predicate rest in
        if decide (i = -1)%Z then -1 else (i + 1)%Z
  end.

(** [array.slice(start)]: a negative start counts from the end, and the
    start is clamped to the array. *)
Definition slice {A} (start : Z) (array : list A) : list A :=
  let len := Z.of_nat (length array) in
  let k :=
    if decide (start < 0)%Z then Z.max (len + start) 0 else Z.min start len in
  drop (Z.to_nat k) array.

(** The [TypeError] of reading [.x] of [undefined]. *)
Definition TypeError_x : string :=
  "Cannot read properties of undefined (reading 'x')".

(** [getLastData]; [data[data.length - 1]] is [undefined] for an empty
    array. *)
Definition getLastData (data : list SeriesPoint) (displayInterval : number)
  : outcome (list SeriesPoint) :=
  match last data with
  | None => Thrown TypeError_x
  | Some lastPoint =>
      let lastTimestamp := x lastPoint in
      let firstIndex :=
        findIndex
          (λ serie, bool_decide (lastTimestamp - displayInterval ≤ x serie))
          data in
      let newVals := slice firstIndex data in
      Returned newVals
  end.

(** The timer callback of [PlotRefresher]: the data handed to [setData],
    for the current [data] and the props [step] and [displayInterval]. *)
Definition refresh (random : number) (step displayInterval : number)
    (data : list SeriesPoint) : outcome (list SeriesPoint) :=
  match last data with
  | None => Thrown TypeError_x
  | Some lastPoint =>
      let '(x, y) := generateNewXY random lastPoint step in
      getLastData (data ++ [{| x := x; y := y |}]) displayInterval
  end.


End Nasdaq.

(** ** Notions the statements below use *)

(** The props of the component elements of a tree, in document order. *)
Fixpoint components {V C} (t : node V C) : list V :=
  match t with
  | NNull | NText _ | NChild _ => []
  | NElem _ _ children | NFragment children =>
      concat (map components children)
  | NComponent props children =>
      props :: concat (map components children)
  end.

(** The props of a [Tracking] element. *)
Definition tracking_props {AxisContext LegendOffset Events}
    (c : Plot.component AxisContext LegendOffset Events)
  : option (Plot.TrackingProps AxisContext Events) :=
  match c with
  | Plot.Tracking props => Some props
  | _ => None
  end.

(** The context of a later render, in which the colour scale object is
    in the state an earlier call left it in. *)
Definition with_colorScaler (ctx : LineSeries.RenderContext)
    (s : D3.ordinal) : LineSeries.RenderContext :=
  {| LineSeries.xScale := LineSeries.xScale ctx;
     LineSeries.yScale := LineSeries.yScale ctx;
     LineSeries.colorScaler := s |}.

(** [{...o1, ...o2}[k]]: the later object wins. *)
Definition later_wins {X} (o1 o2 : object X) (k : string) : option X :=
  match get o2 k with
  | Some v => Some v
  | None => get o1 k
  end.


(** [m] is the least, respectively the greatest, value of [l]. *)
Definition is_minimum (m : number) (l : list number) : Prop :=
  m ∈ l ∧ ∀ v, v ∈ l → m ≤ v.

Definition is_maximum (m : number) (l : list number) : Prop :=
  m ∈ l ∧ ∀ v, v ∈ l → v ≤ m.

(** An optional bound is the minimum (maximum) of the data, and is
    [undefined] exactly when there is no data. *)
Definition minimum_or_undefined (o : option number) (l : list number) : Prop :=
  match o with
  | Some m => is_minimum m l
  | None => l = []
  end.

Definition maximum_or_undefined (o : option number) (l : list number) : Prop :=
  match o with
  | Some m => is_maximum m l
  | None => l = []
  end.

(** The chrome children of a split, in the order [Plot] places them. *)
Definition chrome {Child} (split : Plot.SplitChildren Child) : list Child :=
  option_list (Plot.topAxis split) ++ option_list (Plot.rightAxis split)
  ++ option_list (Plot.bottomAxis split) ++ option_list (Plot.leftAxis split)
  ++ option_list (Plot.legend split) ++ option_list (Plot.heading split).

(** ** A concrete plot to evaluate the code on *)

Module Sample.

(** Modelled from the spec: children as a tagged list of declared roles
    (sections 4.6 and 9). *)
Inductive child : Type :=
| Series (name : string)
| Annotation (name : string)
| Axis (position : PlotContext.Position)
| Heading
| Legend.

#[global] Instance child_eq_dec : EqDecision child.
Proof. solve_decision. Defined.

Definition is_axis (p : PlotContext.Position) (c : child) : bool :=
  match c with
  | Axis q => bool_decide (p = q)
  | _ => false
  end.

Definition is_content (c : child) : bool :=
  match c with
  | Series _ | Annotation _ => true
  | _ => false
  end.

(** Modelled from the spec: [splitChildren] of [utils/splitChildren], not
    among the sources: children are partitioned by declared role, whatever
    their position (section 4.6). *)
Definition split (l : list child) : Plot.SplitChildren child := {|
  Plot.seriesAndAnnotations := filter (λ c, is_content c = true) l;
  Plot.topAxis := head (filter (λ c, is_axis Top c = true) l);
  Plot.rightAxis := head (filter (λ c, is_axis Right c = true) l);
  Plot.bottomAxis := head (filter (λ c, is_axis Bottom c = true) l);
  Plot.leftAxis := head (filter (λ c, is_axis Left c = true) l);
  Plot.heading := head (filter (λ c, c = Heading) l);
  Plot.legend := head (filter (λ c, c = Legend) l)
|}.

Definition bbox (name : string) : Plot.BBox :=
  {| Plot.ref := name; Plot.bboxWidth := 0; Plot.bboxHeight := 0 |}.

(** Modelled from the spec: [usePlotSizes] of [utils/usePlotSizes], not
    among the sources, for a plot without margins, without measured
    chrome and without legend: the plot area is the canvas and the offsets
    are zero (section 4.4, steps 1 to 3). *)
Definition sizes (i : Plot.PlotSizesInput) : Plot.Geometry unit := {|
  Plot.plotWidth := Plot.sizesWidth i;
  Plot.plotHeight := Plot.sizesHeight i;
  Plot.topOffset := 0;
  Plot.leftOffset := 0;
  Plot.legendOffset := ()
|}.

Definition descriptor (id : string) : SeriesDescriptor := {|
  id := id; xMin := Some 0; xMax := Some (num 10);
  yMin := Some 0; yMax := Some (num 5); label := id
|}.

(** A registry holding two series, registered in this order. *)
Definition two_series : PlotState :=
  with_series initialState [descriptor "series-1"; descriptor "series-2"].

Definition hooks : Plot.Hooks unit unit unit unit child := {|
  Plot.plotId := "plot-1";
  Plot.state := two_series;
  Plot.plotEvents := None;
  Plot.plotOverridesAxes := ();
  Plot.headingBbox := bbox "heading";
  Plot.topAxisBbox := bbox "topAxis";
  Plot.rightAxisBbox := bbox "rightAxis";
  Plot.bottomAxisBbox := bbox "bottomAxis";
  Plot.leftAxisBbox := bbox "leftAxis";
  Plot.legendBbox := bbox "legend";
  Plot.splitChildren := split;
  Plot.usePlotSizes := sizes;
  Plot.useAxisContext := λ _ _ _, ()
|}.

Definition props (width height : option number) : Plot.PlotProps child := {|
  Plot.width := width;
  Plot.height := height;
  Plot.colorScheme := None;
  Plot.margin := None;
  Plot.svgStyle := None;
  Plot.svgId := None;
  Plot.svgClassName := None;
  Plot.plotViewportStyle := None;
  Plot.seriesViewportStyle := None;
  Plot.children :=
    [Heading; Series "a"; Axis Bottom; Annotation "arrow"; Axis Left;
     Series "b"; Legend]
|}.

(** A series whose arrays differ in length, and scales to draw it. *)
Definition mismatched : LineSeries.LineSeriesProps := {|
  LineSeries.data := {| LineSeries.x := [num 1; num 2];
                        LineSeries.y := [num 1] |};
  LineSeries.label := "series-1";
  LineSeries.lineStyle := None
|}.

Definition scaled : LineSeries.RenderContext := {|
  LineSeries.xScale := Some (λ v, v * num 50);
  LineSeries.yScale := Some (λ v, num 300 - v * num 60);
  LineSeries.colorScaler := Plot.makeColorScaler D3.schemeSet1 ["series-1"]
|}.

Definition unscaled : LineSeries.RenderContext := {|
  LineSeries.xScale := None;
  LineSeries.yScale := Some (λ v, num 300 - v * num 60);
  LineSeries.colorScaler := Plot.makeColorScaler D3.schemeSet1 ["series-1"]
|}.

End Sample.

(** * Facts about the embedded code *)

(** ** d3-array's [extent] *)

Section Extent.

Import D3.

Lemma extent_from_bounds values : ∀ lo hi,
  lo ≤ hi →
  let r := extent_from lo hi values in
  r.1 ≤ lo ∧ hi ≤ r.2
  ∧ (r.1 = lo ∨ r.1 ∈ values) ∧ (r.2 = hi ∨ r.2 ∈ values)
  ∧ (∀ v, v ∈ values → r.1 ≤ v ∧ v ≤ r.2).
Proof.
  induction values as [|value rest IH]; intros lo hi Hle; simpl.
  - split_and!; try apply Qcle_refl; auto. intros v Hv. inversion Hv.
  - set (lo' := if decide (value < lo) then value else lo).
    set (hi' := if decide (hi < value) then value else hi).
    assert (Hlo : lo' ≤ lo ∧ lo' ≤ value ∧ (lo' = lo ∨ lo' = value)).
    { unfold lo'. case_decide as Hc.
      - repeat split; [by apply Qclt_le_weak | apply Qcle_refl | by right].
      - repeat split; [apply Qcle_refl | by apply Qcnot_lt_le | by left]. }
    assert (Hhi : hi ≤ hi' ∧ value ≤ hi' ∧ (hi' = hi ∨ hi' = value)).
    { unfold hi'. case_decide as Hc.
      - repeat split; [by apply Qclt_le_weak | apply Qcle_refl | by right].
      - repeat split; [apply Qcle_refl | by apply Qcnot_lt_le | by left]. }
    destruct Hlo as (Hlo1 & Hlo2 & Hlo3), Hhi as (Hhi1 & Hhi2 & Hhi3).
    assert (Hle' : lo' ≤ hi').
    { eapply Qcle_trans; [exact Hlo1|]. eapply Qcle_trans; eauto. }
    destruct (IH lo' hi' Hle') as (H1 & H2 & H3 & H4 & H5).
    split_and!.
    + eapply Qcle_trans; eauto.
    + eapply Qcle_trans; eauto.
    + destruct H3 as [->|H3]; [|right; by constructor].
      destruct Hlo3 as [->| ->]; [by left | right; constructor].
    + destruct H4 as [->|H4]; [|right; by constructor].
      destruct Hhi3 as [->| ->]; [by left | right; constructor].
    + intros v [->|Hv]%elem_of_cons; [|by apply H5].
      split; eapply Qcle_trans; eauto.
Qed.

Lemma extent_spec values :
  minimum_or_undefined (extent values).1 values
  ∧ maximum_or_undefined (extent values).2 values.
Proof.
  destruct values as [|value rest]; [done|]. unfold extent.
  pose proof (extent_from_bounds rest value value (Qcle_refl _)) as H.
  destruct (extent_from value value rest) as [lo hi]. simpl in *.
  destruct H as (H1 & H2 & H3 & H4 & H5). split; split.
  - destruct H3 as [->|H3]; [constructor | by constructor].
  - intros v [->|Hv]%elem_of_cons; [done | by apply H5].
  - destruct H4 as [->|H4]; [constructor | by constructor].
  - intros v [->|Hv]%elem_of_cons; [done | by apply H5].
Qed.

End Extent.

(** ** The registry *)

Section Registry.

Lemma find_series_upsert_eq d l : find_series (id d) (upsert d l) = Some d.
Proof.
  induction l as [|e rest IH]; simpl.
  - by rewrite decide_True.
  - destruct (decide (id e = id d)) as [He|He]; simpl.
    + by rewrite decide_True.
    + by rewrite decide_False.
Qed.

Lemma find_series_upsert_ne d l i :
  i ≠ id d → find_series i (upsert d l) = find_series i l.
Proof.
  intros Hi. induction l as [|e rest IH]; simpl.
  - by rewrite decide_False.
  - destruct (decide (id e = id d)) as [He|He]; simpl.
    + rewrite !decide_False; congruence.
    + by rewrite IH.
Qed.

Lemma find_series_remove_eq i l : find_series i (remove i l) = None.
Proof.
  unfold remove. induction l as [|e rest IH]; [done|].
  rewrite filter_cons. destruct (decide (id e ≠ i)) as [He|He]; [|done].
  simpl. by rewrite decide_False.
Qed.

Lemma find_series_remove_ne i j l :
  j ≠ i → find_series j (remove i l) = find_series j l.
Proof.
  intros Hj. unfold remove. induction l as [|e rest IH]; [done|].
  rewrite filter_cons. destruct (decide (id e ≠ i)) as [He|He]; simpl.
  - by rewrite IH.
  - rewrite decide_False; [done|]. apply dec_stable in He. congruence.
Qed.

Lemma find_series_elem_of i l d : find_series i l = Some d → d ∈ l ∧ id d = i.
Proof.
  induction l as [|e rest IH]; simpl; [done|].
  destruct (decide (id e = i)) as [He|He].
  - intros [= ->]. split; [constructor | done].
  - intros [Hin Hid]%IH. split; [by constructor | done].
Qed.

(** Removing an id that is not registered changes nothing. *)
Lemma remove_absent i l : find_series i l = None → remove i l = l.
Proof.
  unfold remove. induction l as [|e rest IH]; simpl; [done|].
  destruct (decide (id e = i)) as [He|He]; [done|].
  intros Hrest. rewrite filter_cons, decide_True by done. by rewrite IH.
Qed.

Lemma upsert_ids_absent d l :
  find_series (id d) l = None → id <$> upsert d l = (id <$> l) ++ [id d].
Proof.
  induction l as [|e rest IH]; csimpl; [done|].
  destruct (decide (id e = id d)) as [He|He]; [done|].
  intros Hrest. csimpl. by rewrite IH.
Qed.

Lemma upsert_ids_present d l :
  is_Some (find_series (id d) l) → id <$> upsert d l = id <$> l.
Proof.
  induction l as [|e rest IH]; csimpl; [by intros [? [=]]|].
  destruct (decide (id e = id d)) as [He|He]; csimpl.
  - intros _. by rewrite He.
  - intros Hrest. by rewrite IH.
Qed.

Lemma find_series_None i l : find_series i l = None ↔ i ∉ id <$> l.
Proof.
  induction l as [|e rest IH]; csimpl.
  - split; [intros _ H; inversion H | done].
  - destruct (decide (id e = i)) as [He|He].
    + split; [done|]. intros []. rewrite <- He. constructor.
    + rewrite IH, not_elem_of_cons. split; [intros Hi; split; congruence|].
      by intros [_ Hi].
Qed.

(** The reducer keeps the ids of the registry distinct. *)
Lemma plotReducer_NoDup state action :
  NoDup (id <$> series state) →
  NoDup (id <$> series (plotReducer state action)).
Proof.
  intros Hnd. destruct action as [d|i]; simpl.
  - destruct (find_series (id d) (series state)) eqn:Hf.
    + rewrite upsert_ids_present; [done | by rewrite Hf].
    + rewrite upsert_ids_absent by done.
      apply NoDup_app. split_and!; [done | | apply NoDup_singleton].
      intros k Hk ->%list_elem_of_singleton. by apply find_series_None in Hf.
  - unfold remove. revert Hnd.
    induction (series state) as [|e rest IH]; [done|].
    rewrite fmap_cons, NoDup_cons. intros [Hnotin Hnd].
    rewrite filter_cons. destruct (decide (id e ≠ i)); [|by apply IH].
    rewrite fmap_cons, NoDup_cons. split; [|by apply IH].
    intros Hin. apply Hnotin. apply list_elem_of_fmap in Hin as (e' & -> & Hin).
    apply list_elem_of_fmap. exists e'. split; [done|].
    by apply list_elem_of_filter in Hin as [_ ?].
Qed.

(** Removing a later entry leaves the earlier ones where they are. *)
Lemma remove_lookup_before l : ∀ i j d e,
  NoDup (id <$> l) → l !! i = Some d → l !! j = Some e → (i < j)%nat →
  remove (id e) l !! i = Some d.
Proof.
  unfold remove. induction l as [|a rest IH]; intros i j d e Hnd Hi Hj Hlt;
    [done|].
  rewrite fmap_cons, NoDup_cons in Hnd. destruct Hnd as [Ha Hnd].
  destruct j as [|j]; [lia|]. simpl in Hj.
  rewrite filter_cons, decide_True.
  - destruct i as [|i]; [done|]. simpl in *. eapply IH; eauto. lia.
  - intros Heq. apply Ha. rewrite Heq. apply list_elem_of_fmap.
    exists e. split; [done|]. by eapply list_elem_of_lookup_2.
Qed.

End Registry.

(** ** [LineSeries]: registration *)

(** C4. The effect of a line series dispatches [newData] with a
    descriptor carrying the series id and label, whose [xMin]/[xMax] and
    [yMin]/[yMax] are the minimum and maximum of [data.x] and of [data.y]
    ([undefined] exactly when the array is empty); its cleanup dispatches
    [removeData] for the same id.  So after mount, and after an update for
    changed data or label, that descriptor is the one registered under the
    id, and after unmount no descriptor is registered under it. *)
Theorem LineSeries_registers_extents
    (id : string) (props : LineSeries.LineSeriesProps) :
  ∃ d : SeriesDescriptor,
    LineSeries.run (LineSeries.LineSeries_effect id props) = [newData d]
    ∧ LineSeries.cleanup (LineSeries.LineSeries_effect id props)
      = [removeData id]
    ∧ PlotContext.id d = id
    ∧ PlotContext.label d = LineSeries.label props
    ∧ minimum_or_undefined (xMin d) (LineSeries.x (LineSeries.data props))
    ∧ maximum_or_undefined (xMax d) (LineSeries.x (LineSeries.data props))
    ∧ minimum_or_undefined (yMin d) (LineSeries.y (LineSeries.data props))
    ∧ maximum_or_undefined (yMax d) (LineSeries.y (LineSeries.data props))
    ∧ (∀ state, registered id (LineSeries.mount id props state) = Some d)
    ∧ (∀ old state,
         registered id (LineSeries.update id old props state) = Some d)
    ∧ (∀ state, registered id (LineSeries.unmount id props state) = None).
Proof.
  unfold LineSeries.mount, LineSeries.update, LineSeries.unmount,
    LineSeries.LineSeries_effect.
  pose proof (extent_spec (LineSeries.x (LineSeries.data props))) as [Hx1 Hx2].
  pose proof (extent_spec (LineSeries.y (LineSeries.data props))) as [Hy1 Hy2].
  destruct (D3.extent (LineSeries.x (LineSeries.data props))) as [x0 x1].
  destruct (D3.extent (LineSeries.y (LineSeries.data props))) as [y0 y1].
  eexists. split_and!; try reflexivity; simpl; try done.
  - intros state. unfold registered. simpl.
    apply (find_series_upsert_eq (Build_SeriesDescriptor _ _ _ _ _ _)).
  - intros old state.
    destruct (D3.extent (LineSeries.x (LineSeries.data old))).
    destruct (D3.extent (LineSeries.y (LineSeries.data old))).
    unfold registered. simpl.
    apply (find_series_upsert_eq (Build_SeriesDescriptor _ _ _ _ _ _)).
  - intros state. unfold registered. simpl. apply find_series_remove_eq.
Qed.

(** ** The colour scale *)

Section ColorScale.

Import D3.

Lemma push_all_NoDup values : ∀ dom,
  NoDup (dom ++ values) → push_all dom values = dom ++ values.
Proof.
  induction values as [|v rest IH]; intros dom Hnd; simpl.
  - by rewrite app_nil_r.
  - apply NoDup_app in Hnd as Hparts. destruct Hparts as (_ & Hdisj & _).
    rewrite decide_False by (intros Hin; apply (Hdisj v Hin); constructor).
    rewrite IH; rewrite <- app_assoc; done.
Qed.

Lemma index_of_lookup l : ∀ i k,
  NoDup l → l !! i = Some k → index_of k l = Some i.
Proof.
  induction l as [|x rest IH]; intros i k Hnd Hi; [done|].
  apply NoDup_cons in Hnd as [Hx Hnd]. simpl. destruct i as [|i]; simpl in Hi.
  - injection Hi as ->. by rewrite decide_True.
  - rewrite decide_False.
    + by rewrite (IH i k).
    + intros ->. apply Hx. by eapply list_elem_of_lookup_2.
Qed.

Lemma index_of_None k l : k ∉ l → index_of k l = None.
Proof.
  induction l as [|x rest IH]; [done|]. intros [Hne Hin]%not_elem_of_cons.
  simpl. rewrite decide_False by done. by rewrite IH.
Qed.

Lemma makeColorScaler_NoDup colorScheme ids :
  NoDup ids → Plot.makeColorScaler colorScheme ids = Ordinal ids colorScheme.
Proof.
  intros Hnd. unfold Plot.makeColorScaler, set_domain. simpl.
  by rewrite push_all_NoDup.
Qed.

(** The colour of the series at position [i] of a registry with distinct
    ids. *)
Lemma seriesColor_at_position (colorScheme : list string) (state : PlotState)
    (i : nat) (d : SeriesDescriptor) :
  NoDup (Plot.ids state) → series state !! i = Some d →
  Plot.seriesColor colorScheme state (id d)
  = colorScheme !! (i mod length colorScheme)%nat.
Proof.
  intros Hnd Hi. unfold Plot.seriesColor.
  rewrite makeColorScaler_NoDup by done. unfold call. simpl.
  rewrite (index_of_lookup _ i); [done | done |].
  unfold Plot.ids. by rewrite list_lookup_fmap, Hi.
Qed.

End ColorScale.




(** A series drawn by [LineSeriesRender] asks the scale for its label;
    a label that is not a registered id is appended to the scale's domain
    and takes the next palette entry after those of the ids. *)
Lemma colorScaler_unregistered_key colorScheme ids key :
  NoDup ids → key ∉ ids →
  D3.call (Plot.makeColorScaler colorScheme ids) key
  = (colorScheme !! (length ids mod length colorScheme)%nat,
     D3.Ordinal (ids ++ [key]) colorScheme).
Proof.
  intros Hnd Hkey. rewrite makeColorScaler_NoDup by done.
  unfold D3.call. simpl. by rewrite index_of_None.
Qed.

(** Removing a series registered later leaves the colour of an earlier
    one as it was. *)
Lemma color_kept_when_later_series_is_removed
    (colorScheme : list string) (state : PlotState)
    (i j : nat) (d e : SeriesDescriptor) :
  NoDup (Plot.ids state) →
  series state !! i = Some d → series state !! j = Some e → (i < j)%nat →
  Plot.seriesColor colorScheme (plotReducer state (removeData (id e))) (id d)
  = Plot.seriesColor colorScheme state (id d).
Proof.
  intros Hnd Hi Hj Hlt.
  rewrite (seriesColor_at_position _ state i d) by done.
  rewrite (seriesColor_at_position _ _ i d); [done | |].
  - by apply (plotReducer_NoDup state (removeData (id e))).
  - simpl. by eapply remove_lookup_before.
Qed.

(** ** The reducer behind immer *)

Section Reducer.

Import Immer.

Lemma produce_spec {A} (recipe : PlotState → A → PlotState) writes
    (h : gmap ref PlotState) (base : ref) (state : PlotState) (a : A) :
  tracks recipe writes →
  h !! base = Some state →
  ∃ h' r, produce recipe writes h base a = Some (h', r)
    ∧ h' !! r = Some (recipe state a)
    ∧ (∀ r0 s0, h !! r0 = Some s0 → h' !! r0 = Some s0)
    ∧ (writes state a = true → r ≠ base ∧ h !! r = None)
    ∧ (writes state a = false → r = base ∧ h' = h).
Proof.
  intros Htracks Hbase. unfold produce. rewrite Hbase.
  destruct (writes state a) eqn:Hw.
  - assert (Hfresh : h !! fresh (dom h) = None).
    { apply not_elem_of_dom, is_fresh. }
    eexists _, _. split_and!; [done | by rewrite lookup_insert_eq | | |done].
    + intros r0 s0 Hr0. rewrite lookup_insert_ne; [done|]. congruence.
    + intros _. split; [congruence | done].
  - exists h, base. split_and!; try done.
    destruct (decide (recipe state a = state)) as [->|Hne]; [done|].
    apply Htracks in Hne. congruence.
Qed.

(** Registering a new id and removing a registered id are structural
    updates: the state they produce differs from the one before. *)
Lemma newData_changes_state state d :
  registered (id d) state = None → plotReducer state (newData d) ≠ state.
Proof.
  unfold registered. intros Hnone Heq. apply (f_equal series) in Heq.
  simpl in Heq. apply (f_equal (find_series (id d))) in Heq.
  rewrite find_series_upsert_eq in Heq. congruence.
Qed.

Lemma removeData_changes_state state i :
  is_Some (registered i state) → plotReducer state (removeData i) ≠ state.
Proof.
  unfold registered. intros [d Hd] Heq. apply (f_equal series) in Heq.
  simpl in Heq. apply (f_equal (find_series i)) in Heq.
  rewrite find_series_remove_eq in Heq. congruence.
Qed.

Lemma writes_on_change_tracks : tracks plotReducer writes_on_change.
Proof.
  intros state action Hne. unfold writes_on_change. by rewrite bool_decide_true.
Qed.

(** The state the hook holds after a dispatch is the reducer's result
    on the state it held before. *)
Lemma dispatch_state_of writes (s : store) (state : PlotState) action :
  tracks plotReducer writes →
  state_of s = Some state →
  ∃ s', dispatch writes s action = Some s'
    ∧ state_of s' = Some (plotReducer state action).
Proof.
  unfold state_of, dispatch, reducerCurr. intros Htracks Hs.
  destruct (produce_spec plotReducer writes (heap s) (current s) state action
              Htracks Hs) as (h' & r & -> & Hr & _). by eexists.
Qed.

End Reducer.



(** ** [Plot]: the guards *)

Section PlotGuards.

Context {AxisContext AxisOverrides LegendOffset Events Child : Type}.
Implicit Types
  (h : Plot.Hooks AxisContext AxisOverrides LegendOffset Events Child)
  (props : Plot.PlotProps Child).

(** C1 (as the code has it).  [Plot] throws exactly when [width] or
    [height] is [undefined]: "width is mandatory" when the width is
    missing, "height is mandatory" when only the height is; with both
    given, whatever their sign, it returns the element tree. *)
Theorem Plot_throws_iff_size_undefined h props :
  (throws (Plot.Plot h props)
   ↔ Plot.width props = None ∨ Plot.height props = None)
  ∧ (Plot.width props = None →
     Plot.Plot h props = Thrown "width is mandatory")
  ∧ (is_Some (Plot.width props) → Plot.height props = None →
     Plot.Plot h props = Thrown "height is mandatory")
  ∧ (∀ width height,
       Plot.width props = Some width → Plot.height props = Some height →
       Plot.Plot h props = Returned (Plot.render h props width height)).
Proof.
  unfold Plot.Plot, throws.
  destruct (Plot.width props) as [w|], (Plot.height props) as [hh|];
    split_and!; try done.
  - split; [intros [msg [=]] | intros [[=]|[=]]].
  - by intros ?? [= <-] [= <-].
  - split; [by right | eauto].
  - split; [by left | eauto].
  - split; [by left | eauto].
Qed.

End PlotGuards.

(** C1 as stated fails: a plot of width 0 and height -5 is rendered, no
    error is thrown. *)
Lemma Plot_renders_nonpositive_size :
  ¬ (0 < (0 : number)) ∧ ¬ (0 < num (-5))
  ∧ Plot.Plot Sample.hooks (Sample.props (Some 0) (Some (num (-5))))
    = Returned (Plot.render Sample.hooks
                  (Sample.props (Some 0) (Some (num (-5)))) 0 (num (-5)))
  ∧ ¬ throws (Plot.Plot Sample.hooks (Sample.props (Some 0) (Some (num (-5))))).
Proof.
  split_and!; [by vm_compute | by vm_compute | reflexivity |].
  intros [msg Hmsg]. discriminate Hmsg.
Qed.

(** ** [Plot]: the clipped viewport *)

Section PlotTree.

Context {AxisContext AxisOverrides LegendOffset Events Child : Type}.
Implicit Types
  (h : Plot.Hooks AxisContext AxisOverrides LegendOffset Events Child)
  (props : Plot.PlotProps Child).

Lemma placements_children {V} clips (l : list Child) :
  concat (map (placements (V := V) clips) (NChild <$> l))
  = (λ c, (c, clips)) <$> l.
Proof. induction l as [|c rest IH]; [done|]. csimpl. by rewrite IH. Qed.

Lemma placements_slot {V} clips (c : option Child) :
  placements (V := V) clips (slot c) = (λ c, (c, clips)) <$> option_list c.
Proof. by destruct c. Qed.

Lemma elements_by_tag_children {V} tag (l : list Child) :
  concat (map (elements_by_tag (V := V) tag) (NChild <$> l)) = [].
Proof. induction l as [|c rest IH]; [done|]. csimpl. by rewrite IH. Qed.

Lemma elements_by_tag_slot {V} tag (c : option Child) :
  elements_by_tag (V := V) tag (slot c) = [].
Proof. by destruct c. Qed.

Lemma clip_of_unstyled (attrs : object attr) :
  get attrs "style" = None → clip_of attrs = [].
Proof. unfold clip_of. by intros ->. Qed.

Lemma clip_of_clipped (u : value) :
  clip_of [("style", AStyle [("clipPath", u)])] = [u].
Proof. reflexivity. Qed.

(** C10. In the tree [Plot] returns, the series and annotation children
    are exactly the children of one group whose style clips it to
    [seriesViewportClip-<plotId>]; that clip path is the only one in the
    tree and holds a rectangle of [plotWidth] by [plotHeight] with no
    offset; the axes, the legend and the heading are placed outside that
    group, under no clip path but one the caller's [svgStyle] may put on
    the whole drawing. *)
Theorem Plot_clips_series_and_annotations h props width height :
  Plot.width props = Some width → Plot.height props = Some height →
  let split := Plot.splitChildren h (Plot.children props) in
  let sizes := Plot.geometry h props width height in
  let outer :=
    clip_of [("style",
              AStyle (spread Plot.defaultSvgStyle
                             (default [] (Plot.svgStyle props))))] in
  ∃ tree, Plot.Plot h props = Returned tree
    ∧ placements [] tree
      = ((λ c, (c, outer ++ [VTpl (Plot.clipUrl (Plot.plotId h))]))
           <$> Plot.seriesAndAnnotations split)
        ++ ((λ c, (c, outer)) <$> chrome split)
    ∧ elements_by_tag "clipPath" tree
      = [([("id", AVal (VTpl (Plot.clipId (Plot.plotId h))))],
          [NElem "rect"
             [("width", AVal (VNum (Plot.plotWidth sizes)));
              ("height", AVal (VNum (Plot.plotHeight sizes)))] []])].
Proof.
  intros Hw Hh split sizes outer. unfold Plot.Plot. rewrite Hw, Hh.
  eexists. split; [reflexivity|]. unfold Plot.render. fold split.
  split.
  - cbn [placements concat map Plot.TransparentRect].
    rewrite placements_children, !placements_slot.
    change (clip_of (_ :: _ :: _ :: ?st :: _)) with (clip_of [st]).
    fold outer.
    change (clip_of [("transform", _)]) with (@nil value).
    change (clip_of [("ref", _)]) with (@nil value).
    change (clip_of []) with (@nil value).
    rewrite clip_of_clipped, !app_nil_r.
    unfold chrome. rewrite !fmap_app, <- !app_assoc.
    cbn [app]. by destruct (Plot.plotEvents h).
  - cbn [elements_by_tag concat map Plot.TransparentRect].
    rewrite elements_by_tag_children, !elements_by_tag_slot.
    by destruct (Plot.plotEvents h).
Qed.

End PlotTree.

Lemma Plot_clips_series_and_annotations_witness :
  ∃ tree,
    Plot.Plot Sample.hooks (Sample.props (Some (num 500)) (Some (num 300)))
    = Returned tree
    ∧ placements [] tree
      = [(Sample.Series "a", [VTpl (Plot.clipUrl "plot-1")]);
         (Sample.Annotation "arrow", [VTpl (Plot.clipUrl "plot-1")]);
         (Sample.Series "b", [VTpl (Plot.clipUrl "plot-1")]);
         (Sample.Axis Bottom, []); (Sample.Axis Left, []);
         (Sample.Legend, []); (Sample.Heading, [])]
    ∧ elements_by_tag "clipPath" tree
      = [([("id", AVal (VTpl (Plot.clipId "plot-1")))],
          [NElem "rect"
             [("width", AVal (VNum (num 500)));
              ("height", AVal (VNum (num 300)))] []])].
Proof.
  exact (Plot_clips_series_and_annotations Sample.hooks
           (Sample.props (Some (num 500)) (Some (num 300)))
           (num 500) (num 300) eq_refl eq_refl).
Defined.

(** ** [LineSeriesRender] *)

Section LineSeriesRender.

Context {V C : Type}.
Implicit Types (ctx : LineSeries.RenderContext)
  (props : LineSeries.LineSeriesProps).

Lemma includes_null_true ctx :
  LineSeries.includes_null ctx = true
  ↔ LineSeries.xScale ctx = None ∨ LineSeries.yScale ctx = None.
Proof.
  unfold LineSeries.includes_null.
  destruct (LineSeries.xScale ctx), (LineSeries.yScale ctx);
    (split; [try done; auto | try done; by intros [|]]).
Qed.

(** C9. When the x scale or the y scale is [null], [LineSeriesRender]
    returns [null]: nothing is thrown, no [path] element is produced, and
    the colour scale is not even asked. *)
Theorem LineSeriesRender_without_scale ctx props :
  LineSeries.xScale ctx = None ∨ LineSeries.yScale ctx = None →
  LineSeries.LineSeriesRender (V := V) (C := C) ctx props
  = (Returned NNull, LineSeries.colorScaler ctx).
Proof.
  intros Hnull%includes_null_true. unfold LineSeries.LineSeriesRender.
  by rewrite Hnull.
Qed.

(** C2 (as the code has it).  For a series whose [x] and [y] arrays
    differ in length nothing is thrown: the path data is [null], and the
    component returns [null] when a scale is missing and otherwise a
    [path] element whose [d] is [null]. *)
Theorem LineSeriesRender_mismatched_lengths ctx props :
  length (LineSeries.x (LineSeries.data props))
  ≠ length (LineSeries.y (LineSeries.data props)) →
  LineSeries.path ctx (LineSeries.data props) = None
  ∧ ∃ n, (LineSeries.LineSeriesRender (V := V) (C := C) ctx props).1
         = Returned n
      ∧ (n = NNull
         ∨ ∃ style, n = NElem "path"
                          [("style", AStyle style); ("d", APath None);
                           ("fill", AVal (VStr "none"))] []).
Proof.
  intros Hlen.
  assert (Hpath : LineSeries.path ctx (LineSeries.data props) = None).
  { unfold LineSeries.path.
    destruct (LineSeries.xScale ctx), (LineSeries.yScale ctx); try done.
    by rewrite decide_True. }
  split; [done|]. unfold LineSeries.LineSeriesRender. rewrite Hpath.
  destruct (LineSeries.includes_null ctx).
  - exists NNull. split; [done | by left].
  - destruct (D3.call _ _) as [stroke scaler]. simpl.
    eexists. split; [done|]. right. by eexists.
Qed.

End LineSeriesRender.

Lemma LineSeriesRender_without_scale_witness :
  LineSeries.LineSeriesRender (V := unit) (C := unit)
    Sample.unscaled Sample.mismatched
  = (Returned NNull, LineSeries.colorScaler Sample.unscaled).
Proof.
  apply (LineSeriesRender_without_scale (V := unit) (C := unit)
           Sample.unscaled Sample.mismatched).
  left. reflexivity.
Defined.

Lemma LineSeriesRender_mismatched_lengths_witness :
  LineSeries.path Sample.scaled (LineSeries.data Sample.mismatched) = None
  ∧ ∃ n, (LineSeries.LineSeriesRender (V := unit) (C := unit)
            Sample.scaled Sample.mismatched).1 = Returned n
      ∧ (n = NNull
         ∨ ∃ style, n = NElem "path"
                          [("style", AStyle style); ("d", APath None);
                           ("fill", AVal (VStr "none"))] []).
Proof.
  apply (LineSeriesRender_mismatched_lengths (V := unit) (C := unit)
           Sample.scaled Sample.mismatched).
  simpl. lia.
Defined.

(** C2 as stated fails: a series with two x values and one y value, drawn
    with both scales present, throws nothing; a red [path] element without
    path data is returned. *)
Lemma LineSeriesRender_mismatched_does_not_throw :
  length (LineSeries.x (LineSeries.data Sample.mismatched)) = 2%nat
  ∧ length (LineSeries.y (LineSeries.data Sample.mismatched)) = 1%nat
  ∧ (LineSeries.LineSeriesRender (V := unit) (C := unit)
       Sample.scaled Sample.mismatched).1
    = Returned (NElem "path"
                  [("style", AStyle [("stroke", VStr "#e41a1c");
                                     ("strokeWidth", VNum (num 2))]);
                   ("d", APath None); ("fill", AVal (VStr "none"))] [])
  ∧ ¬ throws (LineSeries.LineSeriesRender (V := unit) (C := unit)
                Sample.scaled Sample.mismatched).1.
Proof.
  split_and!; [reflexivity | reflexivity | reflexivity |].
  intros [msg Hmsg]. discriminate Hmsg.
Qed.

(** ** Scales *)

Lemma Qc_minus_zero (a b : Qc) : a - b = 0 → a = b.
Proof. intros H. rewrite <- (Qcplus_0_l b), <- H. ring. Qed.

(** The linear scale never fails. *)
Lemma linear_total domain pixelRange v :
  ∃ p, Scale.linear domain pixelRange v = Returned p.
Proof.
  unfold Scale.linear, Scale.divide.
  destruct (decide (Scale.min domain = Scale.max domain)) as [Heq|Hne];
    [by eexists|].
  rewrite decide_False; [by eexists|].
  intros Hz. apply Hne. symmetry. by apply Qc_minus_zero.
Qed.

(** On a domain that is not degenerate the ends of the domain go to the
    ends of the pixel range. *)
Lemma linear_endpoints domain pixelRange :
  Scale.min domain ≠ Scale.max domain →
  Scale.linear domain pixelRange (Scale.min domain)
  = Returned (Scale.start pixelRange)
  ∧ Scale.linear domain pixelRange (Scale.max domain)
    = Returned (Scale.stop pixelRange).
Proof.
  intros Hne. unfold Scale.linear, Scale.divide.
  destruct domain as [lo hi], pixelRange as [a b]. simpl in *.
  assert (Hnz : hi - lo ≠ 0).
  { intros Hz. apply Hne. symmetry. by apply Qc_minus_zero. }
  rewrite !decide_False by done. simpl. unfold number in *.
  split; f_equal; field; done.
Qed.

(** C6. On a degenerate domain ([min = max]) the linear scale returns the
    midpoint of the pixel range for every input; it does not fail on the
    zero width of the domain. *)
Theorem linear_degenerate_midpoint domain pixelRange v :
  Scale.min domain = Scale.max domain →
  Scale.linear domain pixelRange v
  = Returned ((Scale.start pixelRange + Scale.stop pixelRange) / num 2).
Proof. intros Heq. unfold Scale.linear. by rewrite decide_True. Qed.

Lemma linear_degenerate_midpoint_witness :
  Scale.linear {| Scale.min := num 3; Scale.max := num 3 |}
               {| Scale.start := 0; Scale.stop := num 500 |} (num 7)
  = Returned (num 250).
Proof.
  rewrite (linear_degenerate_midpoint
             {| Scale.min := num 3; Scale.max := num 3 |}
             {| Scale.start := 0; Scale.stop := num 500 |} (num 7) eq_refl).
  f_equal. apply Qc_is_canon. reflexivity.
Defined.

(** ** Annotation positions *)

Section Positions.

Import Annotations.

Lemma percent_suffixed_app t : percent_suffixed (t +:+ "%") = Some t.
Proof.
  induction t as [|c rest IH]; [done|].
  change (String c rest +:+ "%") with (String c (rest +:+ "%")).
  cbn [percent_suffixed]. rewrite IH. by destruct rest.
Qed.

(** C5. A string made of a numeral [t] followed by [%] resolves to that
    percentage of the plot dimension it is measured against, whatever
    the axis scale is and whether there is one at all; a bare number
    resolves to itself. *)
Theorem resolve_percent_and_number
    (t : string) (p n total : number) (scale : option (number → number)) :
  parse_number t = Some p →
  resolve (Str (t +:+ "%")) total scale = Some (p * total / num 100)
  ∧ resolve (Str (t +:+ "%")) total None
    = resolve (Str (t +:+ "%")) total scale
  ∧ resolve (Num n) total scale = Some n.
Proof.
  intros Hp. unfold resolve. rewrite percent_suffixed_app, Hp. done.
Qed.

(** The hooks resolve every coordinate with that one resolver. *)
Lemma usePosition_percent ctx t p config :
  parse_number t = Some p →
  x config = Str (t +:+ "%") → y config = Str (t +:+ "%") →
  usePosition ctx config
  = {| px := Some (p * plotWidth ctx / num 100);
       py := Some (p * plotHeight ctx / num 100) |}.
Proof.
  intros Hp Hx Hy. unfold usePosition, resolve. rewrite Hx, Hy.
  by rewrite percent_suffixed_app, Hp.
Qed.

Lemma useEllipsePosition_number ctx a b c d :
  useEllipsePosition ctx {| cx := Num a; cy := Num b;
                            rx := Num c; ry := Num d |}
  = {| pcx := Some a; pcy := Some b; prx := Some c; pry := Some d |}.
Proof. reflexivity. Qed.

End Positions.

Lemma resolve_percent_and_number_witness :
  Annotations.resolve (Annotations.Str "50%") (num 400)
    (Some (λ v, v * num 2))
  = Some (num 200)
  ∧ Annotations.resolve (Annotations.Str "50%") (num 400) None
    = Some (num 200)
  ∧ Annotations.resolve (Annotations.Num (num 120)) (num 400) None
    = Some (num 120).
Proof.
  destruct (resolve_percent_and_number "50" (num 50) (num 120) (num 400)
              (Some (λ v, v * num 2)))
    as (Hpct & Hnone & Hnum).
  { vm_compute. reflexivity. }
  assert (Hval : num 50 * num 400 / num 100 = num 200).
  { apply Qc_is_canon. reflexivity. }
  split_and!.
  - change "50%" with ("50" +:+ "%"). rewrite Hpct. by rewrite Hval.
  - change "50%" with ("50" +:+ "%"). rewrite Hnone, Hpct. by rewrite Hval.
  - reflexivity.
Defined.

(** An arrow from the middle of a 400 by 300 plot area to the pixel
    (120, 40). *)
Example Arrow_mixed_coordinates :
  Annotations.Arrow (V := unit) (C := unit)
    {| Annotations.plotWidth := num 400; Annotations.plotHeight := num 300;
       Annotations.xScale := Some (λ v, v * num 2);
       Annotations.yScale := None |}
    {| Annotations.x1 := Annotations.Str "50%";
       Annotations.y1 := Annotations.Str "50%";
       Annotations.x2 := Annotations.Num (num 120);
       Annotations.y2 := Annotations.Num (num 40);
       Annotations.startPoint := None;
       Annotations.endPoint := Some Annotations.triangle |}
  = NElem "g" []
      [NElem "line"
         [("x1", AVal (VNum (num 200))); ("y1", AVal (VNum (num 150)));
          ("x2", AVal (VNum (num 120))); ("y2", AVal (VNum (num 40)));
          ("stroke", AVal (VStr "black"));
          ("markerStart", AVal VUndefined);
          ("markerEnd",
           AVal (VTpl [Lit "url(#marker-"; StrF "triangle"; Lit ")"]))] []].
Proof.
  unfold Annotations.Arrow, Annotations.usePosition, Annotations.pixel. simpl.
  repeat f_equal; apply Qc_is_canon; reflexivity.
Qed.

(** ** [XAxis] *)

Section XAxisFacts.

Context {V C : Type}.


(** What is rendered and drawn does not depend on the left margin. *)
Lemma XAxis_rendering_ignores_left_margin
    (props : XAxis.AxisProps) (ctx : XAxis.AxisContext) (m : Margins)
    (l : option number) :
  XAxis.margin ctx = Some m →
  let ctx' := {| XAxis.xScale := XAxis.xScale ctx;
                 XAxis.margin :=
                   Some {| marginTop := marginTop m;
                           marginRight := marginRight m;
                           marginBottom := marginBottom m;
                           marginLeft := l |};
                 XAxis.height := XAxis.height ctx;
                 XAxis.width := XAxis.width ctx |} in
  XAxis.returned (XAxis.XAxis (V := V) (C := C) props ctx')
  = XAxis.returned (XAxis.XAxis props ctx)
  ∧ XAxis.drawn (XAxis.XAxis (V := V) (C := C) props ctx')
    = XAxis.drawn (XAxis.XAxis (V := V) (C := C) props ctx).
Proof.
  intros Hm ctx'. unfold XAxis.XAxis, XAxis.layoutEffect. simpl.
  by rewrite Hm.
Qed.

End XAxisFacts.


(** * More of the code *)

(** ** Linear arithmetic on exact rationals *)









(** ** Arrays *)

Section Arrays.

Context {A : Type}.
Implicit Types (l : list A) (predicate : A → bool).

Lemma findIndex_cases predicate l :
  (Nasdaq.findIndex predicate l = (-1)%Z
   ∧ Forall (λ a, predicate a = false) l)
  ∨ ∃ i a, Nasdaq.findIndex predicate l = Z.of_nat i
      ∧ l !! i = Some a ∧ predicate a = true
      ∧ Forall (λ a, predicate a = false) (take i l).
Proof.
  induction l as [|a rest IH]; simpl; [by left|].
  destruct (predicate a) eqn:Ha.
  - right. exists 0%nat, a. by split_and!.
  - destruct IH as [[-> Hall]|(i & b & -> & Hi & Hb & Hall)].
    + left. rewrite decide_True by done. split; [done | by constructor].
    + right. exists (S i), b. rewrite decide_False by lia.
      split_and!; [lia | done | done | by constructor].
Qed.

Lemma slice_index l (i : nat) : Nasdaq.slice (Z.of_nat i) l = drop i l.
Proof.
  unfold Nasdaq.slice. rewrite decide_False by lia.
  destruct (decide (i ≤ length l)%nat).
  - by rewrite Z.min_l, Nat2Z.id by lia.
  - rewrite Z.min_r, Nat2Z.id by lia. rewrite drop_all, drop_ge; [done | lia].
Qed.

Lemma slice_minus_one l : Nasdaq.slice (-1) l = drop (length l - 1) l.
Proof.
  unfold Nasdaq.slice. rewrite decide_True by lia. f_equal. lia.
Qed.

Lemma last_drop l (i : nat) : (i < length l)%nat → last (drop i l) = last l.
Proof.
  intros Hi. rewrite !last_lookup, lookup_drop, length_drop. f_equal. lia.
Qed.

Lemma drop_to_last l a : last l = Some a → drop (length l - 1) l = [a].
Proof.
  intros [l' ->]%last_Some. rewrite length_app. simpl.
  by rewrite drop_app_length' by lia.
Qed.



End Arrays.

(** ** [nasdaq.stories.tsx]: the displayed window *)

Section Window.

Import Nasdaq.

Implicit Types (data kept dropped : list SeriesPoint)
  (displayInterval step random : number).

Lemma getLastData_cases data displayInterval lastPoint :
  last data = Some lastPoint →
  (Forall (λ p, x p < x lastPoint - displayInterval) data
   ∧ getLastData data displayInterval = Returned [lastPoint])
  ∨ ∃ i p, data !! i = Some p
      ∧ x lastPoint - displayInterval ≤ x p
      ∧ Forall (λ p, x p < x lastPoint - displayInterval) (take i data)
      ∧ getLastData data displayInterval = Returned (drop i data).
Proof.
  intros Hlast. unfold getLastData. rewrite Hlast.
  destruct (findIndex_cases
              (λ serie, bool_decide (x lastPoint - displayInterval ≤ x serie))
              data) as [[-> Hall]|(i & p & -> & Hi & Hp & Hall)].
  - left. split.
    + eapply Forall_impl; [exact Hall|]. intros p Hp. simpl in Hp.
      apply bool_decide_eq_false in Hp. by apply Qcnot_le_lt.
    + by rewrite slice_minus_one, (drop_to_last _ lastPoint).
  - right. exists i, p. split_and!; [done | | |].
    + by apply bool_decide_eq_true in Hp.
    + eapply Forall_impl; [exact Hall|]. intros q Hq. simpl in Hq.
      apply bool_decide_eq_false in Hq. by apply Qcnot_le_lt.
    + by rewrite slice_index.
Qed.





End Window.

Section WindowFacts.

Import Nasdaq.

Implicit Types (data kept dropped : list SeriesPoint)
  (displayInterval step random : number).

(** X1. [getLastData] throws exactly on an empty array, where
    [data[data.length - 1]] is [undefined]. *)
Theorem getLastData_throws_iff_empty data displayInterval :
  throws (getLastData data displayInterval) ↔ data = [].
Proof.
  unfold getLastData, throws. destruct (last data) as [p|] eqn:Hlast.
  - split; [by intros [msg [=]]|]. intros ->. discriminate Hlast.
  - apply last_None in Hlast. split; [done | by eexists].
Qed.

(** X2. On data that is not empty [getLastData] returns a suffix of the
    data that still ends with the last point, and every point it drops is
    older than the window [displayInterval] wide that ends at the last
    timestamp. *)
Theorem getLastData_keeps_suffix data displayInterval lastPoint :
  last data = Some lastPoint →
  ∃ dropped kept,
    getLastData data displayInterval = Returned kept
    ∧ data = dropped ++ kept
    ∧ last kept = Some lastPoint
    ∧ Forall (λ p, x p < x lastPoint - displayInterval) dropped.
Proof.
  intros Hlast.
  destruct (getLastData_cases data displayInterval lastPoint Hlast)
    as [[Hall ->]|(i & p & Hi & Hp & Hall & ->)].
  - exists (take (length data - 1) data), [lastPoint]. split_and!; try done.
    + rewrite <- (drop_to_last data lastPoint Hlast). by rewrite take_drop.
    + rewrite <- (take_drop (length data - 1) data) in Hall.
      by apply Forall_app in Hall as [? _].
  - exists (take i data), (drop i data). split_and!; try done.
    + by rewrite take_drop.
    + rewrite last_drop; [done|]. by eapply lookup_lt_Some.
Qed.

Lemma getLastData_keeps_suffix_witness :
  ∃ dropped kept,
    getLastData [{| x := 0; y := num 1 |}; {| x := num 10; y := num 2 |};
                 {| x := num 20; y := num 3 |}] (num 15)
    = Returned kept
    ∧ [{| x := 0; y := num 1 |}; {| x := num 10; y := num 2 |};
       {| x := num 20; y := num 3 |}] = dropped ++ kept
    ∧ last kept = Some {| x := num 20; y := num 3 |}
    ∧ Forall (λ p, x p < num 20 - num 15) dropped.
Proof.
  apply (getLastData_keeps_suffix
           [{| x := 0; y := num 1 |}; {| x := num 10; y := num 2 |};
            {| x := num 20; y := num 3 |}] (num 15)
           {| x := num 20; y := num 3 |}).
  reflexivity.
Defined.





End WindowFacts.

Section Refresh.

Import Nasdaq.

Implicit Types (data kept : list SeriesPoint)
  (displayInterval step random : number).






Lemma refresh_cases random step displayInterval data lastPoint :
  last data = Some lastPoint →
  refresh random step displayInterval data
  = getLastData
      (data ++ [{| x := x lastPoint + step;
                   y := (generateNewXY random lastPoint step).2 |}])
      displayInterval.
Proof. intros Hlast. unfold refresh. by rewrite Hlast. Qed.

(** X6. A refresh throws exactly when the data is empty; otherwise it
    returns data that ends with the newly generated point, so the data
    never becomes empty and the next refresh has a last point to start
    from. *)
Theorem refresh_keeps_data_nonempty random step displayInterval data :
  (throws (refresh random step displayInterval data) ↔ data = [])
  ∧ ∀ lastPoint, last data = Some lastPoint →
      ∃ kept, refresh random step displayInterval data = Returned kept
        ∧ last kept
          = Some {| x := x lastPoint + step;
                    y := (generateNewXY random lastPoint step).2 |}.
Proof.
  split.
  - destruct (last data) as [p|] eqn:Hlast.
    + rewrite (refresh_cases _ _ _ _ p Hlast).
      set (new := {| x := x p + step;
                     y := (generateNewXY random p step).2 |}).
      split.
      * intros [msg Hmsg].
        destruct (getLastData_cases _ displayInterval new
                    (last_snoc new data))
          as [[_ Hrun]|(i & q & _ & _ & _ & Hrun)];
          rewrite Hrun in Hmsg; discriminate.
      * intros ->. discriminate.
    + unfold refresh, throws. rewrite Hlast. apply last_None in Hlast.
      split; [done | by eexists].
  - intros lastPoint Hlast. rewrite (refresh_cases _ _ _ _ _ Hlast).
    set (new := {| x := x lastPoint + step;
                   y := (generateNewXY random lastPoint step).2 |}).
    destruct (getLastData_cases _ displayInterval new (last_snoc new data))
      as [[_ ->]|(i & q & Hi & _ & _ & ->)].
    + by eexists.
    + eexists. split; [done|].
      rewrite last_drop; [apply last_snoc | by eapply lookup_lt_Some].
Qed.



End Refresh.

(** ** Object literals *)

Section Objects.

Context {X : Type}.
Implicit Types (o : object X) (k : string).

Lemma get_None o k : get o k = None ↔ k ∉ o.*1.
Proof.
  induction o as [|[k' v] rest IH]; csimpl.
  - split; [intros _ H; inversion H | done].
  - destruct (decide (k' = k)) as [->|Hne].
    + split; [done|]. intros []. constructor.
    + rewrite IH, not_elem_of_cons. split; [by intros ?; split | by intros []].
Qed.

Lemma get_app o1 o2 k :
  get (o1 ++ o2) k
  = match get o1 k with Some v => Some v | None => get o2 k end.
Proof.
  induction o1 as [|[k' v] rest IH]; simpl; [done|].
  by destruct (decide (k' = k)).
Qed.

Lemma get_replace o k v k' :
  get ((λ kv, if decide (kv.1 = k) then (k, v) else kv) <$> o) k'
  = if decide (k = k') then (λ _, v) <$> get o k else get o k'.
Proof.
  induction o as [|[k0 v0] rest IH]; [by destruct (decide (k = k'))|].
  rewrite fmap_cons. cbn [fst get].
  destruct (decide (k0 = k)) as [->|Hne]; cbn [get].
  - destruct (decide (k = k')) as [->|Hne']; [done | exact IH].
  - destruct (decide (k = k')) as [->|Hne'].
    + by rewrite decide_False.
    + by rewrite IH.
Qed.

Lemma get_assign o k v k' :
  get (assign o k v) k' = if decide (k = k') then Some v else get o k'.
Proof.
  unfold assign. destruct (decide (k ∈ o.*1)) as [Hin|Hout].
  - rewrite get_replace. destruct (decide (k = k')) as [->|]; [|done].
    destruct (get o k') eqn:Hget; [done|]. by apply get_None in Hget.
  - rewrite get_app. simpl. destruct (decide (k = k')) as [->|Hne].
    + apply get_None in Hout. by rewrite Hout.
    + by destruct (get o k').
Qed.

(** In [{...o1, ...o2}] every key of [o2] has the value [o2] gives it,
    and every other key keeps the value of [o1]. *)
Lemma get_spread o2 : ∀ o1 k,
  NoDup o2.*1 → get (spread o1 o2) k = later_wins o1 o2 k.
Proof.
  unfold spread, later_wins.
  induction o2 as [|[k0 v0] rest IH]; intros o1 k Hnd; csimpl; [done|].
  apply NoDup_cons in Hnd as [Hk0 Hnd]. rewrite IH by done.
  cbn [fst snd]. rewrite get_assign.
  destruct (decide (k0 = k)) as [->|Hne]; [|done].
  apply get_None in Hk0. cbn [fst] in Hk0. by rewrite Hk0.
Qed.

End Objects.

(** ** [LineSeriesRender]: style, colour and path *)

Section LineSeriesRenderMore.

Context {V C : Type}.
Implicit Types (ctx : LineSeries.RenderContext)
  (props : LineSeries.LineSeriesProps).

Lemma index_of_Some_lt k l i : D3.index_of k l = Some i → (i < length l)%nat.
Proof.
  revert i. induction l as [|a rest IH]; intros i; simpl; [done|].
  destruct (decide (a = k)); [intros [= <-]; lia|].
  destruct (D3.index_of k rest) eqn:Hrest; simpl; [|done].
  intros [= <-]. specialize (IH _ eq_refl). lia.
Qed.

Lemma index_of_app_l k l1 l2 i :
  D3.index_of k l1 = Some i → D3.index_of k (l1 ++ l2) = Some i.
Proof.
  revert i. induction l1 as [|a rest IH]; intros i; simpl; [done|].
  destruct (decide (a = k)); [done|].
  destruct (D3.index_of k rest) eqn:Hrest; simpl; [|done].
  intros [= <-]. by rewrite (IH _ eq_refl).
Qed.

Lemma index_of_snoc k l :
  D3.index_of k l = None → D3.index_of k (l ++ [k]) = Some (length l).
Proof.
  induction l as [|a rest IH]; simpl.
  - intros _. by rewrite decide_True.
  - destruct (decide (a = k)); [done|].
    destruct (D3.index_of k rest) eqn:Hrest; simpl; [done|].
    intros _. by rewrite IH.
Qed.

(** Asking the scale again for a key it was asked for gives the same
    colour and leaves the scale as it is. *)
Lemma call_again s k :
  D3.call (D3.call s k).2 k = ((D3.call s k).1, (D3.call s k).2).
Proof.
  unfold D3.call. destruct (D3.index_of k (D3.domain s)) eqn:Hi; simpl.
  - by rewrite Hi.
  - by rewrite index_of_snoc.
Qed.

End LineSeriesRenderMore.

Section LineSeriesRenderFacts.

Context {V C : Type}.
Implicit Types (ctx : LineSeries.RenderContext)
  (props : LineSeries.LineSeriesProps).

Lemma includes_null_false ctx xs ys :
  LineSeries.xScale ctx = Some xs → LineSeries.yScale ctx = Some ys →
  LineSeries.includes_null ctx = false.
Proof. unfold LineSeries.includes_null. by intros -> ->. Qed.

(** X8. With both scales present, every property of [lineStyle] ends up
    in the style of the path and wins over the defaults; a key that
    [lineStyle] does not set keeps its default, the stroke taken from the
    colour scale at the label and a stroke width of 2. *)
Theorem LineSeriesRender_lineStyle_wins ctx props xs ys :
  LineSeries.xScale ctx = Some xs → LineSeries.yScale ctx = Some ys →
  NoDup (default [] (LineSeries.lineStyle props)).*1 →
  ∃ style,
    (LineSeries.LineSeriesRender (V := V) (C := C) ctx props).1
    = Returned (NElem "path"
                  [("style", AStyle style);
                   ("d", APath (LineSeries.path ctx (LineSeries.data props)));
                   ("fill", AVal (VStr "none"))] [])
    ∧ ∀ k, get style k
           = later_wins
               [("stroke",
                 from_option VStr VUndefined
                   (D3.call (LineSeries.colorScaler ctx)
                            (LineSeries.label props)).1);
                ("strokeWidth", VNum (num 2))]
               (default [] (LineSeries.lineStyle props)) k.
Proof.
  intros Hx Hy Hnd. unfold LineSeries.LineSeriesRender.
  rewrite (includes_null_false ctx xs ys) by done.
  destruct (D3.call _ _) as [stroke scaler]. simpl.
  eexists. split; [done|]. intros k. by apply get_spread.
Qed.

(** X9. Rendering a series again with the colour scale in the state the
    first render left it in returns the same element and leaves the scale
    as it is: the stroke of a series is stable across re-renders. *)
Theorem LineSeriesRender_again ctx props :
  LineSeries.LineSeriesRender (V := V) (C := C)
    (with_colorScaler ctx (LineSeries.LineSeriesRender (V := V) (C := C)
                             ctx props).2) props
  = LineSeries.LineSeriesRender ctx props.
Proof.
  unfold LineSeries.LineSeriesRender, with_colorScaler, LineSeries.path,
    LineSeries.includes_null. simpl.
  destruct (LineSeries.xScale ctx), (LineSeries.yScale ctx); try done.
  destruct (D3.call (LineSeries.colorScaler ctx) (LineSeries.label props))
    as [stroke scaler] eqn:Hcall. simpl.
  pose proof (call_again (LineSeries.colorScaler ctx)
                (LineSeries.label props)) as Hagain.
  rewrite Hcall in Hagain. simpl in Hagain. by rewrite Hagain.
Qed.

(** X10. With both scales present and arrays of equal length, the path
    goes through one point per datum, in order, the [i]-th being the
    scaled [i]-th [x] and [y]; without data the path data is [null]. *)
Theorem LineSeriesRender_path_points ctx props xs ys :
  LineSeries.xScale ctx = Some xs → LineSeries.yScale ctx = Some ys →
  length (LineSeries.x (LineSeries.data props))
  = length (LineSeries.y (LineSeries.data props)) →
  ∃ points style,
    length points = length (LineSeries.x (LineSeries.data props))
    ∧ (∀ i vx vy,
         LineSeries.x (LineSeries.data props) !! i = Some vx →
         LineSeries.y (LineSeries.data props) !! i = Some vy →
         points !! i = Some (xs vx, ys vy))
    ∧ (LineSeries.LineSeriesRender (V := V) (C := C) ctx props).1
      = Returned (NElem "path"
                    [("style", AStyle style);
                     ("d", APath (if decide (points = []) then None
                                  else Some points));
                     ("fill", AVal (VStr "none"))] []).
Proof.
  intros Hx Hy Hlen.
  exists (zip_with (λ vx vy, (xs vx, ys vy))
            (LineSeries.x (LineSeries.data props))
            (LineSeries.y (LineSeries.data props))).
  unfold LineSeries.LineSeriesRender.
  rewrite (includes_null_false ctx xs ys) by done.
  destruct (D3.call _ _) as [stroke scaler]. simpl.
  eexists. split_and!.
  - rewrite length_zip_with. lia.
  - intros i vx vy Hi Hj. by rewrite lookup_zip_with, Hi, Hj.
  - unfold LineSeries.path. rewrite Hx, Hy, decide_False by (by intros ?).
    unfold D3.lineGenerator. repeat f_equal.
    by destruct (zip_with _ _ _).
Qed.

Lemma LineSeriesRender_new_label ctx xs ys props :
  LineSeries.xScale ctx = Some xs → LineSeries.yScale ctx = Some ys →
  LineSeries.label props ∉ D3.domain (LineSeries.colorScaler ctx) →
  LineSeries.lineStyle props = None →
  LineSeries.LineSeriesRender (V := V) (C := C) ctx props
  = (Returned
       (NElem "path"
          [("style",
            AStyle [("stroke",
                     from_option VStr VUndefined
                       (D3.range (LineSeries.colorScaler ctx)
                        !! (length (D3.domain (LineSeries.colorScaler ctx))
                            mod length (D3.range (LineSeries.colorScaler ctx)))%nat));
                    ("strokeWidth", VNum (num 2))]);
           ("d", APath (LineSeries.path
                          (with_colorScaler ctx (LineSeries.colorScaler ctx))
                          (LineSeries.data props)));
           ("fill", AVal (VStr "none"))] []),
     D3.Ordinal (D3.domain (LineSeries.colorScaler ctx)
                 ++ [LineSeries.label props])
                (D3.range (LineSeries.colorScaler ctx))).
Proof.
  intros Hx Hy Hlabel Hstyle. unfold LineSeries.LineSeriesRender.
  rewrite (includes_null_false ctx xs ys) by done.
  unfold D3.call. rewrite (index_of_None _ _ Hlabel), Hstyle. done.
Qed.

(** X11. Two series whose labels are not in the domain of the colour
    scale, rendered one after the other, take the next two palette entries
    after those of the domain: the scale appends each new label. *)
Theorem LineSeriesRender_new_labels ctx xs ys pa pb :
  LineSeries.xScale ctx = Some xs → LineSeries.yScale ctx = Some ys →
  LineSeries.label pa ∉ D3.domain (LineSeries.colorScaler ctx) →
  LineSeries.label pb ∉ D3.domain (LineSeries.colorScaler ctx) →
  LineSeries.label pa ≠ LineSeries.label pb →
  LineSeries.lineStyle pa = None → LineSeries.lineStyle pb = None →
  let s := LineSeries.colorScaler ctx in
  let m := length (D3.domain s) in
  let n := length (D3.range s) in
  let entry (i : nat) := from_option VStr VUndefined (D3.range s !! (i mod n)%nat) in
  let first := LineSeries.LineSeriesRender (V := V) (C := C) ctx pa in
  let second :=
    LineSeries.LineSeriesRender (V := V) (C := C)
      (with_colorScaler ctx first.2) pb in
  first.1
  = Returned (NElem "path"
                [("style", AStyle [("stroke", entry m);
                                   ("strokeWidth", VNum (num 2))]);
                 ("d", APath (LineSeries.path ctx (LineSeries.data pa)));
                 ("fill", AVal (VStr "none"))] [])
  ∧ second.1
    = Returned (NElem "path"
                  [("style", AStyle [("stroke", entry (S m));
                                     ("strokeWidth", VNum (num 2))]);
                   ("d", APath (LineSeries.path ctx (LineSeries.data pb)));
                   ("fill", AVal (VStr "none"))] [])
  ∧ D3.domain second.2
    = D3.domain s ++ [LineSeries.label pa; LineSeries.label pb].
Proof.
  intros Hx Hy Ha Hb Hab Hsa Hsb s m n entry first second.
  subst first second.
  rewrite (LineSeriesRender_new_label ctx xs ys pa) by done.
  cbn [fst snd].
  rewrite (LineSeriesRender_new_label _ xs ys pb); try done.
  - cbn [fst snd with_colorScaler LineSeries.colorScaler D3.domain D3.range].
    rewrite length_app. cbn [length]. rewrite Nat.add_1_r.
    split_and!; [done | done | by rewrite <- app_assoc].
  - cbn [with_colorScaler LineSeries.colorScaler D3.domain].
    rewrite not_elem_of_app, list_elem_of_singleton. split; [done | congruence].
Qed.

End LineSeriesRenderFacts.

Lemma LineSeriesRender_lineStyle_wins_witness :
  ∃ style,
    (LineSeries.LineSeriesRender (V := unit) (C := unit) Sample.scaled
       {| LineSeries.data := {| LineSeries.x := [num 1; num 2];
                                LineSeries.y := [num 3; num 4] |};
          LineSeries.label := "series-1";
          LineSeries.lineStyle := Some [("stroke", VStr "green")] |}).1
    = Returned (NElem "path"
                  [("style", AStyle style);
                   ("d", APath (Some [(num 1 * num 50, num 300 - num 3 * num 60);
                                      (num 2 * num 50, num 300 - num 4 * num 60)]));
                   ("fill", AVal (VStr "none"))] [])
    ∧ get style "stroke" = Some (VStr "green")
    ∧ get style "strokeWidth" = Some (VNum (num 2)).
Proof.
  destruct (LineSeriesRender_lineStyle_wins (V := unit) (C := unit)
              Sample.scaled
              {| LineSeries.data := {| LineSeries.x := [num 1; num 2];
                                       LineSeries.y := [num 3; num 4] |};
                 LineSeries.label := "series-1";
                 LineSeries.lineStyle := Some [("stroke", VStr "green")] |}
              (λ v, v * num 50) (λ v, num 300 - v * num 60))
    as (style & Hrun & Hstyle).
  - reflexivity.
  - reflexivity.
  - simpl. repeat constructor. by intros ?%elem_of_nil.
  - exists style. split_and!.
    + exact Hrun.
    + by rewrite Hstyle.
    + by rewrite Hstyle.
Defined.

Lemma LineSeriesRender_path_points_witness :
  ∃ points style,
    length points = 2%nat
    ∧ (∀ i vx vy,
         [num 1; num 2] !! i = Some vx → [num 3; num 4] !! i = Some vy →
         points !! i = Some (vx * num 50, num 300 - vy * num 60))
    ∧ (LineSeries.LineSeriesRender (V := unit) (C := unit) Sample.scaled
         {| LineSeries.data := {| LineSeries.x := [num 1; num 2];
                                  LineSeries.y := [num 3; num 4] |};
            LineSeries.label := "series-1";
            LineSeries.lineStyle := None |}).1
      = Returned (NElem "path"
                    [("style", AStyle style);
                     ("d", APath (if decide (points = []) then None
                                  else Some points));
                     ("fill", AVal (VStr "none"))] []).
Proof.
  apply (LineSeriesRender_path_points (V := unit) (C := unit) Sample.scaled
           {| LineSeries.data := {| LineSeries.x := [num 1; num 2];
                                    LineSeries.y := [num 3; num 4] |};
              LineSeries.label := "series-1";
              LineSeries.lineStyle := None |}
           (λ v, v * num 50) (λ v, num 300 - v * num 60));
    reflexivity.
Defined.

Lemma LineSeriesRender_new_labels_witness :
  let pa := {| LineSeries.data := {| LineSeries.x := [num 1];
                                     LineSeries.y := [num 3] |};
               LineSeries.label := "nasdaq";
               LineSeries.lineStyle := None |} in
  let pb := {| LineSeries.data := {| LineSeries.x := [num 1];
                                     LineSeries.y := [num 4] |};
               LineSeries.label := "dow";
               LineSeries.lineStyle := None |} in
  let first :=
    LineSeries.LineSeriesRender (V := unit) (C := unit) Sample.scaled pa in
  let second :=
    LineSeries.LineSeriesRender (V := unit) (C := unit)
      (with_colorScaler Sample.scaled first.2) pb in
  first.1
  = Returned (NElem "path"
                [("style", AStyle [("stroke", VStr "#377eb8");
                                   ("strokeWidth", VNum (num 2))]);
                 ("d", APath (Some [(num 1 * num 50, num 300 - num 3 * num 60)]));
                 ("fill", AVal (VStr "none"))] [])
  ∧ second.1
    = Returned (NElem "path"
                  [("style", AStyle [("stroke", VStr "#4daf4a");
                                     ("strokeWidth", VNum (num 2))]);
                   ("d", APath (Some [(num 1 * num 50, num 300 - num 4 * num 60)]));
                   ("fill", AVal (VStr "none"))] [])
  ∧ D3.domain second.2 = ["series-1"] ++ ["nasdaq"; "dow"].
Proof.
  apply (LineSeriesRender_new_labels (V := unit) (C := unit) Sample.scaled
           (λ v, v * num 50) (λ v, num 300 - v * num 60)
           {| LineSeries.data := {| LineSeries.x := [num 1];
                                    LineSeries.y := [num 3] |};
              LineSeries.label := "nasdaq";
              LineSeries.lineStyle := None |}
           {| LineSeries.data := {| LineSeries.x := [num 1];
                                    LineSeries.y := [num 4] |};
              LineSeries.label := "dow";
              LineSeries.lineStyle := None |});
    try reflexivity; try discriminate.
  - apply (bool_decide_unpack _). by vm_compute.
  - apply (bool_decide_unpack _). by vm_compute.
Defined.

(** ** [LineSeries]: the extents it registers *)

Section LineSeriesMore.

Import D3.

Lemma extent_ordered values :
  match extent values with
  | (Some lo, Some hi) => values ≠ [] ∧ lo ≤ hi
  | (None, None) => values = []
  | _ => False
  end.
Proof.
  destruct values as [|v rest]; [done|]. unfold extent.
  pose proof (extent_from_bounds rest v v (Qcle_refl _)) as H.
  destruct (extent_from v v rest) as [lo hi]. simpl in H.
  destruct H as (Hlo & Hhi & _). split; [done|].
  eapply Qcle_trans; eauto.
Qed.

Lemma is_minimum_unique m m' l l' :
  l ≡ₚ l' → is_minimum m l → is_minimum m' l' → m = m'.
Proof.
  intros Hperm [Hin Hle] [Hin' Hle'].
  apply Qcle_antisym.
  - apply Hle. by rewrite Hperm.
  - apply Hle'. by rewrite <- Hperm.
Qed.

Lemma is_maximum_unique m m' l l' :
  l ≡ₚ l' → is_maximum m l → is_maximum m' l' → m = m'.
Proof.
  intros Hperm [Hin Hle] [Hin' Hle'].
  apply Qcle_antisym.
  - apply Hle'. by rewrite <- Hperm.
  - apply Hle. by rewrite Hperm.
Qed.

Lemma extent_Permutation l l' : l ≡ₚ l' → extent l = extent l'.
Proof.
  intros Hperm.
  pose proof (extent_spec l) as [Hmin Hmax].
  pose proof (extent_spec l') as [Hmin' Hmax'].
  pose proof (extent_ordered l) as Hl. pose proof (extent_ordered l') as Hl'.
  destruct (extent l) as [[lo|] [hi|]], (extent l') as [[lo'|] [hi'|]];
    simpl in *; try done.
  - f_equal; f_equal;
      [by eapply is_minimum_unique | by eapply is_maximum_unique].
  - rewrite Hl' in Hperm. apply Permutation_nil_r in Hperm.
    by destruct Hl as [[] _].
  - rewrite Hl in Hperm. apply Permutation_nil_l in Hperm.
    by destruct Hl' as [[] _].
Qed.

(** X12. In the descriptor a line series registers, the two bounds of a
    dimension are both defined or both [undefined], and a defined minimum
    is not above the maximum. *)
Theorem LineSeries_extents_ordered
    (id : string) (props : LineSeries.LineSeriesProps) :
  ∃ d : SeriesDescriptor,
    LineSeries.run (LineSeries.LineSeries_effect id props) = [newData d]
    ∧ (xMin d = None ↔ xMax d = None)
    ∧ (yMin d = None ↔ yMax d = None)
    ∧ (∀ lo hi, xMin d = Some lo → xMax d = Some hi → lo ≤ hi)
    ∧ (∀ lo hi, yMin d = Some lo → yMax d = Some hi → lo ≤ hi).
Proof.
  unfold LineSeries.LineSeries_effect.
  pose proof (extent_ordered (LineSeries.x (LineSeries.data props))) as Hx.
  pose proof (extent_ordered (LineSeries.y (LineSeries.data props))) as Hy.
  destruct (extent (LineSeries.x (LineSeries.data props))) as [[x0|] [x1|]],
    (extent (LineSeries.y (LineSeries.data props))) as [[y0|] [y1|]];
    try done; eexists; (split; [reflexivity|]); simpl;
    split_and!; try done; intros ?? [= <-] [= <-]; tauto.
Qed.

(** X13. The descriptor does not depend on the order of the data: two
    series with the same id and label whose [x] arrays are permutations of
    each other, and whose [y] arrays are, dispatch the same actions. *)
Theorem LineSeries_effect_Permutation
    (id : string) (props props' : LineSeries.LineSeriesProps) :
  LineSeries.x (LineSeries.data props)
  ≡ₚ LineSeries.x (LineSeries.data props') →
  LineSeries.y (LineSeries.data props)
  ≡ₚ LineSeries.y (LineSeries.data props') →
  LineSeries.label props = LineSeries.label props' →
  LineSeries.LineSeries_effect id props
  = LineSeries.LineSeries_effect id props'.
Proof.
  intros Hx Hy Hlabel. unfold LineSeries.LineSeries_effect.
  by rewrite (extent_Permutation _ _ Hx), (extent_Permutation _ _ Hy), Hlabel.
Qed.

End LineSeriesMore.

Lemma LineSeries_effect_Permutation_witness :
  LineSeries.LineSeries_effect "series-1"
    {| LineSeries.data := {| LineSeries.x := [num 3; num 1; num 2];
                             LineSeries.y := [num 5; num 4; num 6] |};
       LineSeries.label := "a"; LineSeries.lineStyle := None |}
  = LineSeries.LineSeries_effect "series-1"
      {| LineSeries.data := {| LineSeries.x := [num 1; num 2; num 3];
                               LineSeries.y := [num 4; num 5; num 6] |};
         LineSeries.label := "a"; LineSeries.lineStyle := None |}.
Proof.
  apply LineSeries_effect_Permutation; simpl.
  - apply (bool_decide_unpack _). by vm_compute.
  - apply (bool_decide_unpack _). by vm_compute.
  - reflexivity.
Defined.

(** ** [Plot]: the svg element and the tracking layer *)

Section PlotMore.

Context {AxisContext AxisOverrides LegendOffset Events Child : Type}.
Implicit Types
  (h : Plot.Hooks AxisContext AxisOverrides LegendOffset Events Child)
  (props : Plot.PlotProps Child).

Lemma components_children {V} (l : list Child) :
  concat (map (components (V := V)) (NChild <$> l)) = [].
Proof. induction l as [|c rest IH]; [done|]. csimpl. by rewrite IH. Qed.

Lemma components_slot {V} (c : option Child) :
  components (V := V) (slot c) = [].
Proof. by destruct c. Qed.

(** X14. The tree [Plot] returns has one [svg] element, of the width and
    height given; in its style every property of [svgStyle] wins over the
    defaults, and a property [svgStyle] does not set keeps its default
    (visible overflow, the Arial font family, no user selection). *)
Theorem Plot_svg_style h props width height :
  Plot.width props = Some width → Plot.height props = Some height →
  NoDup (default [] (Plot.svgStyle props)).*1 →
  ∃ tree attrs children style,
    Plot.Plot h props = Returned tree
    ∧ elements_by_tag "svg" tree = [(attrs, children)]
    ∧ get attrs "width" = Some (AVal (VNum width))
    ∧ get attrs "height" = Some (AVal (VNum height))
    ∧ get attrs "style" = Some (AStyle style)
    ∧ ∀ k, get style k
           = later_wins Plot.defaultSvgStyle
               (default [] (Plot.svgStyle props)) k.
Proof.
  intros Hw Hh Hnd. unfold Plot.Plot. rewrite Hw, Hh. unfold Plot.render.
  destruct (Plot.plotEvents h) eqn:Hevents.
  all: eexists _, _, _, _; split; [reflexivity|].
  all: split;
    [cbn [elements_by_tag concat map Plot.TransparentRect];
     rewrite elements_by_tag_children, !elements_by_tag_slot; reflexivity|].
  all: split_and!; try reflexivity.
  all: intros k; by apply get_spread.
Qed.

(** X15. The tree [Plot] returns holds a [Tracking] element exactly when
    the plot is under a plot-events controller, and then a single one,
    which is handed the plot id, the registered series and the plot area
    of this render. *)
Theorem Plot_tracking_iff_plotEvents h props width height :
  Plot.width props = Some width → Plot.height props = Some height →
  ∃ tree, Plot.Plot h props = Returned tree
    ∧ omap tracking_props (components tree)
      = match Plot.plotEvents h with
        | None => []
        | Some events =>
            let sizes := Plot.geometry h props width height in
            [{| Plot.trackingPlotId := Plot.plotId h;
                Plot.trackingPlotEvents := events;
                Plot.stateSeries := series (Plot.state h);
                Plot.trackingAxisContext :=
                  Plot.useAxisContext h (Plot.state h)
                    (Plot.plotOverridesAxes h)
                    (Plot.plotWidth sizes, Plot.plotHeight sizes);
                Plot.trackingPlotWidth := Plot.plotWidth sizes;
                Plot.trackingPlotHeight := Plot.plotHeight sizes |}]
        end.
Proof.
  intros Hw Hh. unfold Plot.Plot. rewrite Hw, Hh.
  eexists. split; [reflexivity|]. unfold Plot.render.
  cbn [components concat map Plot.TransparentRect].
  rewrite components_children, !components_slot.
  by destruct (Plot.plotEvents h).
Qed.

End PlotMore.

Lemma Plot_svg_style_witness :
  ∃ tree attrs children style,
    Plot.Plot Sample.hooks
      {| Plot.width := Some (num 500); Plot.height := Some (num 300);
         Plot.colorScheme := None; Plot.margin := None;
         Plot.svgStyle := Some [("overflow", VStr "hidden")];
         Plot.svgId := None; Plot.svgClassName := None;
         Plot.plotViewportStyle := None; Plot.seriesViewportStyle := None;
         Plot.children := [] |} = Returned tree
    ∧ elements_by_tag "svg" tree = [(attrs, children)]
    ∧ get style "overflow" = Some (VStr "hidden")
    ∧ get style "userSelect" = Some (VStr "none").
Proof.
  destruct (Plot_svg_style Sample.hooks
              {| Plot.width := Some (num 500); Plot.height := Some (num 300);
                 Plot.colorScheme := None; Plot.margin := None;
                 Plot.svgStyle := Some [("overflow", VStr "hidden")];
                 Plot.svgId := None; Plot.svgClassName := None;
                 Plot.plotViewportStyle := None;
                 Plot.seriesViewportStyle := None;
                 Plot.children := [] |} (num 500) (num 300))
    as (tree & attrs & children & style & Hrun & Hsvg & _ & _ & _ & Hstyle).
  - reflexivity.
  - reflexivity.
  - simpl. repeat constructor. by intros ?%elem_of_nil.
  - exists tree, attrs, children, style. split_and!.
    + exact Hrun.
    + exact Hsvg.
    + by rewrite Hstyle.
    + by rewrite Hstyle.
Defined.

Lemma Plot_tracking_iff_plotEvents_witness :
  ∃ tree,
    Plot.Plot Sample.hooks (Sample.props (Some (num 500)) (Some (num 300)))
    = Returned tree
    ∧ omap tracking_props (components tree) = [].
Proof.
  exact (Plot_tracking_iff_plotEvents Sample.hooks
           (Sample.props (Some (num 500)) (Some (num 300)))
           (num 500) (num 300) eq_refl eq_refl).
Defined.

(** ** The palette *)



(** ** [XAxis]: the label *)

Section XAxisLabel.

Context {V C : Type}.

(** X17. [XAxis] returns a [text] element exactly for a label that is
    given and not empty; the element then holds the label, in the font
    size given or 16, anchored in the middle. *)
Theorem XAxis_label_text (props : XAxis.AxisProps) (ctx : XAxis.AxisContext) :
  let rendered := XAxis.returned (XAxis.XAxis (V := V) (C := C) props ctx) in
  (elements_by_tag "text" rendered = []
   ↔ XAxis.label props = None ∨ XAxis.label props = Some "")
  ∧ ∀ l, XAxis.label props = Some l → l ≠ "" →
      ∃ attrs, elements_by_tag "text" rendered = [(attrs, [NText l])]
        ∧ get attrs "fontSize"
          = Some (AVal (VNum (default (num 16) (XAxis.fontSize props))))
        ∧ get attrs "textAnchor" = Some (AVal (VStr "middle")).
Proof.
  unfold XAxis.XAxis. cbn [XAxis.returned elements_by_tag concat map].
  destruct (XAxis.label props) as [[|c l]|]; simpl.
  - split; [split; [by right | done]|]. by intros l [= <-].
  - split; [split; [done | by intros [|]]|].
    intros l' [= <-] _. by eexists.
  - split; [split; [by left | done]|]. by intros l.
Qed.

End XAxisLabel.

(** ** [Arrow] and [Ellipse] *)

Section AnnotationsMore.

Import Annotations.

Context {V C : Type}.

(** X18. [Arrow] draws one black line in a group.  An end point that is
    left out or is ['none'] puts no marker on its end of the line; any
    other shape refers to the marker of that shape. *)
Theorem Arrow_markers (ctx : PositionContext) (props : ArrowProps) :
  ∃ attrs,
    Arrow (V := V) (C := C) ctx props = NElem "g" [] [NElem "line" attrs []]
    ∧ get attrs "stroke" = Some (AVal (VStr "black"))
    ∧ (get attrs "markerStart" = Some (AVal VUndefined)
       ↔ startPoint props = None ∨ startPoint props = Some none)
    ∧ (get attrs "markerEnd" = Some (AVal VUndefined)
       ↔ endPoint props = None ∨ endPoint props = Some none)
    ∧ (∀ s, startPoint props = Some s → s ≠ none →
         get attrs "markerStart"
         = Some (AVal (VTpl [Lit "url(#marker-"; StrF (shape_name s);
                             Lit ")"])))
    ∧ (∀ s, endPoint props = Some s → s ≠ none →
         get attrs "markerEnd"
         = Some (AVal (VTpl [Lit "url(#marker-"; StrF (shape_name s);
                             Lit ")"]))).
Proof.
  unfold Arrow. eexists. split; [reflexivity|]. cbn [get].
  rewrite !decide_False by done. rewrite !decide_True by done.
  split; [done|].
  destruct (startPoint props) as [[]|], (endPoint props) as [[]|]; simpl;
    split_and!;
    try (split; [by intros [=] | by intros [[=]|[=]]]);
    try (split; [auto | done]);
    try (by intros s [= <-] ?).
Qed.


End AnnotationsMore.


(** ** [LineSeriesRender]: what a render does to the colour scale *)

Section ScaleAfterRender.

Context {V C : Type}.

Lemma index_of_Some_elem_of k l i : D3.index_of k l = Some i → k ∈ l.
Proof.
  revert i. induction l as [|a rest IH]; intros i; simpl; [done|].
  destruct (decide (a = k)) as [->|]; [intros _; constructor|].
  destruct (D3.index_of k rest) eqn:Hrest; simpl; [|done].
  intros _. constructor. by eapply IH.
Qed.

(** X20. A render writes to the colour scale object of the context at
    most by appending its label to the domain: the range is untouched, the
    former domain is kept as a prefix, and when both scales are present
    the label is in the domain afterwards. *)
Theorem LineSeriesRender_grows_domain
    (ctx : LineSeries.RenderContext) (props : LineSeries.LineSeriesProps) :
  let after :=
    (LineSeries.LineSeriesRender (V := V) (C := C) ctx props).2 in
  D3.range after = D3.range (LineSeries.colorScaler ctx)
  ∧ (D3.domain after = D3.domain (LineSeries.colorScaler ctx)
     ∨ ((LineSeries.label props ∉ D3.domain (LineSeries.colorScaler ctx))
        ∧ D3.domain after
          = (D3.domain (LineSeries.colorScaler ctx)
             ++ [LineSeries.label props])))
  ∧ (LineSeries.includes_null ctx = false →
     LineSeries.label props ∈ D3.domain after).
Proof.
  unfold LineSeries.LineSeriesRender.
  destruct (LineSeries.includes_null ctx); simpl.
  { split_and!; [done | by left | done]. }
  unfold D3.call.
  destruct (D3.index_of (LineSeries.label props)
              (D3.domain (LineSeries.colorScaler ctx))) as [i|] eqn:Hi; simpl.
  - split_and!; [done | by left |]. intros _. by eapply index_of_Some_elem_of.
  - split_and!; [done | |].
    + right. split; [|done]. intros Hin.
      apply list_elem_of_lookup in Hin as [j Hj].
      clear -Hi Hj. revert j Hj Hi.
      induction (D3.domain (LineSeries.colorScaler ctx)) as [|a rest IH];
        intros j Hj; [done|]. simpl.
      destruct (decide (a = LineSeries.label props)); [done|].
      destruct j as [|j]; simpl in Hj; [congruence|].
      destruct (D3.index_of (LineSeries.label props) rest) eqn:Hrest;
        simpl; [done|]. intros _. by eapply IH.
    + intros _. apply elem_of_app. right. constructor.
Qed.

End ScaleAfterRender.
